(** * hyfetch: colour profiles ([hyfetch/presets.py])

    A shallow embedding of the [ColorProfile] class and of the [PRESETS]
    table, followed by the properties of the colour distribution
    ([with_weights], [with_length]) and of the text colouring routine
    ([color_text]). *)

From Stdlib Require Import ZArith Lia String Ascii DecimalString.
From Equations Require Import Equations.
From Equations.Prop Require Import Logic.
From stdpp Require Import base list gmap.

Local Open Scope Z_scope.

(** ** Python values *)

(** A Python [str] is a sequence of Unicode code points; [len], indexing and
    iteration all work code point by code point. *)
Abbreviation char := N (only parsing).
Abbreviation str := (list N) (only parsing).

(** A string literal of the source, as a [str]. *)
Fixpoint lit (s : string) : str :=
  match s with
  | EmptyString => []
  | String a s' => N_of_ascii a :: lit s'
  end.

(** The exceptions the modelled code can raise. *)
Inductive exn :=
  | IndexError
  | ZeroDivisionError
  | ColorParseError.

(** The outcome of evaluating a Python expression or block. *)
Inductive Res (A : Type) :=
  | Ok (a : A)
  | Raise (e : exn).
Arguments Ok {A} a.
Arguments Raise {A} e.

Definition bind {A B} (m : Res A) (k : A → Res B) : Res B :=
  match m with
  | Ok a => k a
  | Raise e => Raise e
  end.

Notation "'let*' x ':=' m 'in' k" := (bind m (λ x, k))
  (at level 10, x name, m at level 100, k at level 200).

(** [a // b] on Python integers: floor division, raising on a zero divisor. *)
Definition floordiv (a b : Z) : Res Z :=
  if b =? 0 then Raise ZeroDivisionError else Ok (a / b).

(** [a % b] on Python integers: the remainder has the sign of [b]. *)
Definition pymod (a b : Z) : Res Z :=
  if b =? 0 then Raise ZeroDivisionError else Ok (a mod b).

(** [len(l)] *)
Definition len {A} (l : list A) : Z := Z.of_nat (length l).

(** The position a Python index denotes in a sequence of length [n]:
    negative indices count from the end, anything outside raises. *)
Definition norm_index (n : nat) (i : Z) : Res nat :=
  let j := if i <? 0 then i + Z.of_nat n else i in
  if (j <? 0) || (Z.of_nat n <=? j) then Raise IndexError else Ok (Z.to_nat j).

(** [l[i]] *)
Definition getitem {A} (l : list A) (i : Z) : Res A :=
  let* j := norm_index (length l) i in
  match l !! j with
  | Some a => Ok a
  | None => Raise IndexError
  end.

(** [l[i] = v], returning the updated list. *)
Definition setitem {A} (l : list A) (i : Z) (v : A) : Res (list A) :=
  let* j := norm_index (length l) i in
  Ok (<[j := v]> l).

(** [l[i] += d] on a list of integers. *)
Definition additem (l : list Z) (i : Z) (d : Z) : Res (list Z) :=
  let* old := getitem l i in
  setitem l i (old + d).

(** [[x] * n] *)
Definition list_mul {A} (x : A) (n : Z) : list A := replicate (Z.to_nat n) x.

(** [for i, x in enumerate(l): s = body(s, i, x)], counting from [i]. *)
Fixpoint for_enumerate {A S} (body : S → Z → A → Res S)
    (i : Z) (l : list A) (s : S) : Res S :=
  match l with
  | [] => Ok s
  | x :: l' => let* s' := body s i x in for_enumerate body (i + 1) l' s'
  end.

(** ** Colours ([color_util.RGB], used by the profile) *)

(** Modelled from the spec: the [RGB] class of [color_util], which is not
    part of the sources at hand; three components [r], [g], [b]. *)
Record RGB := mkRGB { r : Z; g : Z; b : Z }.

(** The two [RGB] operations the profile calls: [RGB.from_hex] (which may
    raise on a malformed string) and [RGB.to_ansi_rgb]. *)
Class ColorUtil := {
  from_hex : str → Res RGB;
  to_ansi_rgb : RGB → bool → str
}.

(** ** The class [ColorProfile] *)

Inductive Spacing := equal | weighted.

(** An instance; [raw] is only assigned when the profile is built from
    strings. *)
Record ColorProfile := mkColorProfile {
  raw : option (list str);
  colors : list RGB
}.

(** The class attribute [spacing = 'equal']. *)
Definition spacing (self : ColorProfile) : Spacing := equal.

(** The argument of the constructor: [list[str] | list[RGB]]. *)
Inductive ColorList :=
  | Strs (l : list str)
  | RGBs (l : list RGB).

(** The variables of the [while] loop of [with_length]. *)
Record Border := mkBorder {
  extras : Z;
  weights : list Z;
  border_i : Z
}.

(** One turn of the loop body. *)
Definition border_step (st : Border) : Res Border :=
  let extras := extras st - 2 in
  let* weights := additem (weights st) (border_i st) 1 in
  let* weights := additem weights (- (border_i st + 1)) 1 in
  Ok (mkBorder extras weights (border_i st + 1)).

(** [while extras > 0: ...] *)
Equations border_loop (st : Border) : Res Border
  by wf (Z.to_nat (extras st)) lt :=
border_loop st with inspect (0 <? extras st) := {
  | exist _ true Hgt with inspect (border_step st) := {
      | exist _ (Ok st') Hst => border_loop st'
      | exist _ (Raise e) _ => Raise e }
  | exist _ false _ => Ok st }.
Next Obligation.
  intros st st' Hst Hgt _. simpl in Hst, Hgt.
  unfold border_step in Hst.
  destruct (additem _ _ _); simpl in Hst; [|discriminate].
  destruct (additem _ _ _); simpl in Hst; [|discriminate].
  injection Hst as <-. simpl. apply Z.ltb_lt in Hgt. lia.
Defined.

Section ColorProfile.
Context `{CU : ColorUtil}.

(** [[RGB.from_hex(c) for c in colors]] *)
Fixpoint from_hex_all (l : list str) : Res (list RGB) :=
  match l with
  | [] => Ok []
  | c :: l' =>
      let* x := from_hex c in
      let* xs := from_hex_all l' in
      Ok (x :: xs)
  end.

(** [ColorProfile.__init__]; [colors[0]] is evaluated first, to choose
    between the two branches. *)
Definition __init__ (colors : ColorList) : Res ColorProfile :=
  match colors with
  | Strs l =>
      let* _ := getitem l 0 in
      let* cs := from_hex_all l in
      Ok (mkColorProfile (Some l) cs)
  | RGBs l =>
      let* _ := getitem l 0 in
      Ok (mkColorProfile None l)
  end.

(** [ColorProfile.with_weights]: the comprehension
    [[c for i, w in enumerate(weights) for c in [self.colors[i]] * w]]. *)
Definition with_weights (self : ColorProfile) (weights : list Z)
    : Res (list RGB) :=
  for_enumerate
    (λ acc i w, let* c := getitem (colors self) i in Ok (acc ++ list_mul c w))
    0 weights [].

(** [with_length] up to the [while] loop: the values of [extras],
    [weights] and [border_i] on entering it. *)
Definition border_init (self : ColorProfile) (length : Z) : Res Border :=
  let preset_len := len (colors self) in
  let* center_i := floordiv preset_len 2 in
  let* repeats := floordiv length preset_len in
  let weights := list_mul repeats preset_len in
  let* extras := pymod length preset_len in
  let* odd := pymod extras 2 in
  if odd =? 1
  then let* weights := additem weights center_i 1 in
       Ok (mkBorder (extras - 1) weights 0)
  else Ok (mkBorder extras weights 0).

(** The weights [with_length] hands to [with_weights]. *)
Definition length_weights (self : ColorProfile) (length : Z)
    : Res (list Z) :=
  let* st := border_init self length in
  let* st := border_loop st in
  Ok (weights st).

(** [ColorProfile.with_length] *)
Definition with_length (self : ColorProfile) (length : Z)
    : Res (list RGB) :=
  let* weights := length_weights self length in
  with_weights self weights.

(** The character [' '] and the literal ['\033[0m']. *)
Definition space : char := 32%N.
Definition reset : str := 27%N :: lit "[0m".

(** The body of the [for] loop of [color_text]. *)
Definition color_text_step (colors : list RGB) (txt : str)
    (foreground space_only : bool) (result : str) (i : Z) (t : char)
    : Res str :=
  if space_only && negb (t =? space)%N then
    let* closes :=
      (if 0 <? i
       then let* prev := getitem txt (i - 1) in Ok (prev =? space)%N
       else Ok false) in
    let result := if closes then result ++ reset else result in
    Ok (result ++ [t])
  else
    let* c := getitem colors i in
    Ok (result ++ (to_ansi_rgb c foreground ++ [t])).

(** [ColorProfile.color_text] *)
Definition color_text (self : ColorProfile) (txt : str)
    (foreground space_only : bool) : Res str :=
  let* colors := with_length self (len txt) in
  let* result :=
    for_enumerate (color_text_step colors txt foreground space_only)
      0 txt [] in
  Ok (result ++ reset).

(** A dict display [{k1: ColorProfile(v1), k2: ColorProfile(v2), ...}]:
    the items are evaluated and stored from left to right, a later key
    replacing the value of an equal earlier one. *)
Fixpoint dict_display (items : list (str * list str))
    (d : gmap str ColorProfile) : Res (gmap str ColorProfile) :=
  match items with
  | [] => Ok d
  | (k, v) :: items' =>
      let* p := __init__ (Strs v) in
      dict_display items' (<[k := p]> d)
  end.

End ColorProfile.

(** ** The operations of [color_util.RGB] *)

(** The value of a hexadecimal digit, in either case. *)
Definition hex_digit (c : char) : option Z :=
  let c := Z.of_N c in
  if (48 <=? c) && (c <=? 57) then Some (c - 48)
  else if (65 <=? c) && (c <=? 70) then Some (c - 55)
  else if (97 <=? c) && (c <=? 102) then Some (c - 87)
  else None.

Definition hex_pair (hi lo : char) : option Z :=
  match hex_digit hi, hex_digit lo with
  | Some h, Some l => Some (16 * h + l)
  | _, _ => None
  end.

(** Modelled from the spec: [RGB.from_hex] of [color_util], which is not
    part of the sources at hand. It accepts [#RRGGBB], the hash sign being
    optional and the digits of either case, and fails unless exactly six
    hexadecimal digits remain once the hash sign is dropped. *)
Definition spec_from_hex (hex : str) : Res RGB :=
  let digits := match hex with
                | 35%N :: rest => rest
                | _ => hex
                end in
  match digits with
  | [r1; r2; g1; g2; b1; b2] =>
      match hex_pair r1 r2, hex_pair g1 g2, hex_pair b1 b2 with
      | Some r, Some g, Some b => Ok (mkRGB r g b)
      | _, _, _ => Raise ColorParseError
      end
  | _ => Raise ColorParseError
  end.

(** A component in decimal. *)
Definition decimal (n : Z) : str := lit (NilZero.string_of_int (Z.to_int n)).

(** Modelled from the spec: [RGB.to_ansi_rgb] of [color_util], which is not
    part of the sources at hand. It gives [ESC[38;2;R;G;Bm] for the
    foreground and [ESC[48;2;R;G;Bm] for the background. *)
Definition spec_to_ansi_rgb (c : RGB) (foreground : bool) : str :=
  27%N :: lit (if foreground then "[38;2;" else "[48;2;")
    ++ decimal (r c) ++ lit ";" ++ decimal (g c) ++ lit ";" ++ decimal (b c)
    ++ lit "m".

Definition spec_color_util : ColorUtil :=
  {| from_hex := spec_from_hex; to_ansi_rgb := spec_to_ansi_rgb |}.

(** ** The table [PRESETS] *)

(** The items of the dict display, in source order. *)
Definition PRESETS_items : list (str * list str) := [
  (lit "rainbow",
   [lit "#E50000"; lit "#FF8D00"; lit "#FFEE00"; lit "#028121"; lit "#004CFF";
    lit "#770088"]);
  (lit "transgender",
   [lit "#55CDFD"; lit "#F6AAB7"; lit "#FFFFFF"; lit "#F6AAB7"; lit "#55CDFD"]);
  (lit "nonbinary",
   [lit "#FCF431"; lit "#FCFCFC"; lit "#9D59D2"; lit "#282828"]);
  (lit "agender",
   [lit "#000000"; lit "#BABABA"; lit "#FFFFFF"; lit "#BAF484"; lit "#FFFFFF";
    lit "#BABABA"; lit "#000000"]);
  (lit "queer",
   [lit "#B57FDD"; lit "#FFFFFF"; lit "#49821E"]);
  (lit "genderfluid",
   [lit "#FE76A2"; lit "#FFFFFF"; lit "#BF12D7"; lit "#000000"; lit "#303CBE"]);
  (lit "bisexual",
   [lit "#D60270"; lit "#9B4F96"; lit "#0038A8"]);
  (lit "pansexual",
   [lit "#FF1C8D"; lit "#FFD700"; lit "#1AB3FF"]);
  (lit "lesbian",
   [lit "#D62800"; lit "#FF9B56"; lit "#FFFFFF"; lit "#D462A6"; lit "#A40062"]);
  (lit "asexual",
   [lit "#000000"; lit "#A4A4A4"; lit "#FFFFFF"; lit "#810081"]);
  (lit "aromantic",
   [lit "#3BA740"; lit "#A8D47A"; lit "#FFFFFF"; lit "#ABABAB"; lit "#000000"]);
  (lit "autosexual",
   [lit "#99D9EA"; lit "#7F7F7F"]);
  (lit "intergender",
   [lit "#900DC2"; lit "#900DC2"; lit "#FFE54F"; lit "#900DC2"; lit "#900DC2"]);
  (lit "greygender",
   [lit "#B3B3B3"; lit "#B3B3B3"; lit "#FFFFFF"; lit "#062383"; lit "#062383";
    lit "#FFFFFF"; lit "#535353"; lit "#535353"]);
  (lit "akiosexual",
   [lit "#F9485E"; lit "#FEA06A"; lit "#FEF44C"; lit "#FFFFFF"; lit "#000000"]);
  (lit "transmasculine",
   [lit "#FF8ABD"; lit "#CDF5FE"; lit "#9AEBFF"; lit "#74DFFF"; lit "#9AEBFF";
    lit "#CDF5FE"; lit "#FF8ABD"]);
  (lit "demifaun",
   [lit "#7F7F7F"; lit "#7F7F7F"; lit "#C6C6C6"; lit "#C6C6C6"; lit "#FCC688";
    lit "#FFF19C"; lit "#FFFFFF"; lit "#8DE0D5"; lit "#9682EC"; lit "#C6C6C6";
    lit "#C6C6C6"; lit "#7F7F7F"; lit "#7F7F7F"]);
  (lit "neutrois",
   [lit "#FFFFFF"; lit "#1F9F00"; lit "#000000"]);
  (lit "biromantic alt 2",
   [lit "#8869A5"; lit "#D8A7D8"; lit "#FFFFFF"; lit "#FDB18D"; lit "#151638"]);
  (lit "biromantic alt 2",
   [lit "#740194"; lit "#AEB1AA"; lit "#FFFFFF"; lit "#AEB1AA"; lit "#740194"]);
  (lit "autoromantic",
   [lit "#99D9EA"; lit "#99D9EA"; lit "#99D9EA"; lit "#99D9EA"; lit "#99D9EA";
    lit "#000000"; lit "#3DA542"; lit "#3DA542"; lit "#000000"; lit "#7F7F7F";
    lit "#7F7F7F"; lit "#7F7F7F"; lit "#7F7F7F"; lit "#7F7F7F"]);
  (lit "boyflux alt 2",
   [lit "#E48AE4"; lit "#9A81B4"; lit "#55BFAB"; lit "#FFFFFF"; lit "#A8A8A8";
    lit "#81D5EF"; lit "#81D5EF"; lit "#81D5EF"; lit "#81D5EF"; lit "#81D5EF";
    lit "#69ABE5"; lit "#69ABE5"; lit "#69ABE5"; lit "#69ABE5"; lit "#69ABE5";
    lit "#69ABE5"; lit "#69ABE5"; lit "#69ABE5"; lit "#69ABE5"; lit "#69ABE5";
    lit "#5276D4"; lit "#5276D4"; lit "#5276D4"; lit "#5276D4"; lit "#5276D4";
    lit "#5276D4"; lit "#5276D4"; lit "#5276D4"; lit "#5276D4"; lit "#5276D4"]);
  (lit "neopronoun",
   [lit "#BCEC64"; lit "#BCEC64"; lit "#BCEC64"; lit "#FFFFFF"; lit "#FFFFFF";
    lit "#38077A"; lit "#38077A"; lit "#38077A"]);
  (lit "gynesexual",
   [lit "#F5A9B8"; lit "#8F3F2B"; lit "#5B943A"]);
  (lit "spectrasexual",
   [lit "#F079FF"; lit "#8879FF"; lit "#FFFFFF"; lit "#79FFF0"; lit "#79B5FF"]);
  (lit "black transgender",
   [lit "#5BCEFA"; lit "#F5A9B8"; lit "#000000"; lit "#F5A9B8"; lit "#5BCEFA"]);
  (lit "aftgender",
   [lit "#6B30D5"; lit "#6B30D5"; lit "#6B30D5"; lit "#6B30D5"; lit "#FEEDAE";
    lit "#FDACE5"]);
  (lit "paragirl",
   [lit "#9D9D9D"; lit "#9D9D9D"; lit "#9D9D9D"; lit "#FFFFFF"; lit "#FFFFFF";
    lit "#FFFFFF"; lit "#FDCDBA"; lit "#FDCDBA"; lit "#FDCDBA"; lit "#FE8C5d";
    lit "#FE8C5d"; lit "#FE8C5d"; lit "#F42D45"; lit "#FE8C5d"; lit "#FE8C5d";
    lit "#FE8C5d"; lit "#FDCDBA"; lit "#FDCDBA"; lit "#FDCDBA"; lit "#FFFFFF";
    lit "#FFFFFF"; lit "#FFFFFF"; lit "#9D9D9D"; lit "#9D9D9D"; lit "#9D9D9D"]);
  (lit "demiandrogyne",
   [lit "#7E7E7E"; lit "#C5C5C5"; lit "#F92E8E"; lit "#5721AB"; lit "#09C3ED";
    lit "#C5C5C5"; lit "#7E7E7E"]);
  (lit "gay male",
   [lit "#078D70"; lit "#26CEAA"; lit "#98E8C1"; lit "#FFFFFF"; lit "#7BADE2";
    lit "#5049CC"; lit "#3D1A78"]);
  (lit "bicurious",
   [lit "#F347F8"; lit "#F347F8"; lit "#F787FA"; lit "#FDC6FD"; lit "#FFFFFF";
    lit "#FFFFFF"; lit "#C6E0FD"; lit "#76B5fA"; lit "#2D8CF7"; lit "#2D8CF7"]);
  (lit "paraboy",
   [lit "#9D9D9D"; lit "#9D9D9D"; lit "#9D9D9D"; lit "#FFFFFF"; lit "#FFFFFF";
    lit "#FFFFFF"; lit "#E9CFEE"; lit "#E9CFEE"; lit "#E9CFEE"; lit "#C78BD8";
    lit "#C78BD8"; lit "#C78BD8"; lit "#1104AF"; lit "#C78BD8"; lit "#C78BD8";
    lit "#C78BD8"; lit "#E9CFEE"; lit "#E9CFEE"; lit "#E9CFEE"; lit "#FFFFFF";
    lit "#FFFFFF"; lit "#FFFFFF"; lit "#9D9D9D"; lit "#9D9D9D"; lit "#9D9D9D"]);
  (lit "faunflux",
   [lit "#C1DEEB"; lit "#29669C"; lit "#97CEFF"; lit "#FFFFFF"; lit "#C6C2C2";
    lit "#5D5D5D"; lit "#989898"]);
  (lit "bear brotherhood",
   [lit "#613704"; lit "#613704"; lit "#D46300"; lit "#D46300"; lit "#000000";
    lit "#FDDC62"; lit "#FDDC62"; lit "#FDE5B7"; lit "#FDE5B7"; lit "#FFFFFF";
    lit "#FFFFFF"; lit "#545454"; lit "#545454"; lit "#000000"; lit "#000000"]);
  (lit "hijra",
   [lit "#FECCE7"; lit "#FECCE7"; lit "#FECCE7"; lit "#FFFFFF"; lit "#C00100";
    lit "#FFFFFF"; lit "#B9E1FB"; lit "#B9E1FB"; lit "#B9E1FB"]);
  (lit "trigender",
   [lit "#FF95C5"; lit "#9581FF"; lit "#67D966"; lit "#9581FF"; lit "#FF95C5"]);
  (lit "demiromantic",
   [lit "#56A644"; lit "#56A644"; lit "#A8D242"; lit "#A8D242"; lit "#000000";
    lit "#FDF979"; lit "#FDF979"; lit "#A9A8A8"; lit "#A9A8A8"]);
  (lit "cupiosexual",
   [lit "#A0A0A0"; lit "#C8BFE6"; lit "#FFFFFF"; lit "#FFB3DA"]);
  (lit "aliagender",
   [lit "#8DC73F"; lit "#8BAD5A"; lit "#899374"; lit "#877A8E"; lit "#8560A9";
    lit "#A4678C"; lit "#C26E70"; lit "#E07654"; lit "#FF7D37"]);
  (lit "paragirl alt",
   [lit "#BCBCBC"; lit "#BCBCBC"; lit "#BCBCBC"; lit "#BCBCBC"; lit "#FFFFFF";
    lit "#FFFFFF"; lit "#EED0F3"; lit "#EED0F3"; lit "#EED0F3"; lit "#EED0F3";
    lit "#F32DEA"; lit "#000000"; lit "#F32DEA"; lit "#EED0F3"; lit "#EED0F3";
    lit "#EED0F3"; lit "#EED0F3"; lit "#FFFFFF"; lit "#FFFFFF"; lit "#BCBCBC";
    lit "#BCBCBC"; lit "#BCBCBC"; lit "#BCBCBC"]);
  (lit "genderfaun",
   [lit "#FCD689"; lit "#FFF09B"; lit "#FAF9CD"; lit "#FFFFFF"; lit "#8EDED9";
    lit "#8CACDE"; lit "#9782EC"]);
  (lit "polygender",
   [lit "#000000"; lit "#939393"; lit "#ED94C5"; lit "#F5ED81"; lit "#64BBE6"]);
  (lit "biromantic alt",
   [lit "#D60270"; lit "#D60270"; lit "#D60270"; lit "#D60270"; lit "#D60270";
    lit "#D60270"; lit "#D60270"; lit "#FFFFFF"; lit "#FFFFFF"; lit "#FFFFFF";
    lit "#9B4F96"; lit "#9B4F96"; lit "#FFFFFF"; lit "#000000"; lit "#FFFFFF";
    lit "#9B4F96"; lit "#9B4F96"; lit "#FFFFFF"; lit "#FFFFFF"; lit "#FFFFFF";
    lit "#0038A8"; lit "#0038A8"; lit "#0038A8"; lit "#0038A8"; lit "#0038A8";
    lit "#0038A8"; lit "#0038A8"])
].

(** [PRESETS], with the colours parsed by [spec_from_hex]. *)
Definition PRESETS : Res (gmap str ColorProfile) :=
  @dict_display spec_color_util PRESETS_items ∅.


(** Two entries of the table, as [__init__] builds them: ['neutrois'] with
    three colours and ['autosexual'] with two. *)
Definition neutrois : ColorProfile :=
  mkColorProfile (Some [lit "#FFFFFF"; lit "#1F9F00"; lit "#000000"])
    [mkRGB 255 255 255; mkRGB 31 159 0; mkRGB 0 0 0].

Definition autosexual : ColorProfile :=
  mkColorProfile (Some [lit "#99D9EA"; lit "#7F7F7F"])
    [mkRGB 153 217 234; mkRGB 127 127 127].

(** The entry a name is bound to once the table is built. *)
Definition preset (name : str) : option ColorProfile :=
  match PRESETS with
  | Ok d => d !! name
  | Raise _ => None
  end.

(** The keys a dict display writes more than once, each listed once. *)
Definition duplicated_keys (items : list (str * list str)) : list str :=
  let keys := items.*1 in
  filter (λ k, 1 < length (filter (k =.) keys))%nat (remove_dups keys).

(** The items of a dict display written under the key [k], in source
    order. *)
Definition items_of (k : str) (items : list (str * list str))
    : list (list str) :=
  (filter (λ kv, kv.1 = k) items).*2.

(** ** The distribution, in the words of the specification *)

(** [sum(l)] *)
Definition sum (l : list Z) : Z := foldr Z.add 0 l.

(** Adding 1 to the weight at index [i]. *)
Definition add1 (i : nat) (weights : list Z) : list Z :=
  alter (λ w, w + 1) i weights.

(** Adding 1 to the weights at indices [i] and [N-1-i]. *)
Definition add_pair (N : nat) (weights : list Z) (i : nat) : list Z :=
  add1 (N - 1 - i) (add1 i weights).

(** The weights as the specification words them: every weight set to
    [length // N]; one more at index [N // 2] when [length mod N] is odd;
    then, [e] being the even remainder left, one more at [i] and [N-1-i]
    for every [i] from 0 up to [e/2 - 1]. *)
Definition spec_weights (N : nat) (length : Z) : list Z :=
  let base := replicate N (length / Z.of_nat N) in
  let rem := length mod Z.of_nat N in
  let centred := if Z.odd rem then add1 (N / 2) base else base in
  let e := if Z.odd rem then rem - 1 else rem in
  foldl (add_pair N) centred (seq 0 (Z.to_nat (e / 2))).

(** [colors[i]] repeated [weights[i]] times, concatenated in palette
    order. *)
Definition spec_expand (colors : list RGB) (weights : list Z) : list RGB :=
  concat (zip_with (λ c w, replicate (Z.to_nat w) c) colors weights).

Definition spec_distribute (colors : list RGB) (length : Z) : list RGB :=
  spec_expand colors (spec_weights (List.length colors) length).

(** What the character [t] at index [i] of [txt] adds to the output: the
    character itself, after the reset sequence when it ends a run of
    spaces, or the character after the escape sequence of its colour. *)
Definition piece `{CU : ColorUtil} (colorSeq : list RGB) (txt : str)
    (foreground space_only : bool) (i : nat) (t : char) : str :=
  if space_only && negb (t =? space)%N
  then (if bool_decide (0 < i)%nat &&
           bool_decide (txt !! (i - 1)%nat = Some space)
        then reset else []) ++ [t]
  else match colorSeq !! i with
       | Some c => to_ansi_rgb c foreground ++ [t]
       | None => [t]
       end.

(** [weights[i] == weights[N-1-i]] for all [i]. *)
Definition palindrome (weights : list Z) : Prop :=
  ∀ i : nat, (i < length weights)%nat →
    weights !! i = weights !! (length weights - 1 - i)%nat.

(** The states the [while] loop goes through from [st]: each turn is taken
    under the guard [extras > 0]. *)
Inductive border_run (st : Border) : Border → Prop :=
  | run_enter : border_run st st
  | run_turn st' st'' :
      border_run st st' →
      0 < extras st' →
      border_step st' = Ok st'' →
      border_run st st''.

(** The loop invariant: [extras] is even and non-negative, and the turns
    still to come stay within the left half of the weights. *)
Definition border_inv (N : Z) (st : Border) : Prop :=
  0 ≤ extras st ∧ extras st mod 2 = 0 ∧ 0 ≤ border_i st ∧
  2 * border_i st + extras st ≤ N - 1.

(** ** Python indexing *)

Lemma norm_index_nonneg (n : nat) (i : Z) :
  0 ≤ i < Z.of_nat n → norm_index n i = Ok (Z.to_nat i).
Proof.
  intros Hi. unfold norm_index.
  destruct (Z.ltb_spec i 0); [lia|].
  destruct (Z.ltb_spec i 0); [lia|].
  destruct (Z.leb_spec (Z.of_nat n) i); [lia|]. reflexivity.
Qed.

Lemma norm_index_neg (n : nat) (i : Z) :
  0 ≤ i < Z.of_nat n →
  norm_index n (- (i + 1)) = Ok (n - 1 - Z.to_nat i)%nat.
Proof.
  intros Hi. unfold norm_index.
  destruct (Z.ltb_spec (- (i + 1)) 0); [|lia].
  destruct (Z.ltb_spec (- (i + 1) + Z.of_nat n) 0); [lia|].
  destruct (Z.leb_spec (Z.of_nat n) (- (i + 1) + Z.of_nat n)); [lia|].
  simpl. f_equal. lia.
Qed.

Lemma norm_index_lt (n : nat) (i : Z) (j : nat) :
  norm_index n i = Ok j → (j < n)%nat.
Proof.
  unfold norm_index. intros H.
  destruct (_ || _) eqn:E; [discriminate|].
  apply orb_false_iff in E as [E1 E2].
  apply Z.ltb_ge in E1. apply Z.leb_gt in E2.
  injection H as <-. lia.
Qed.

Lemma getitem_lookup {A} (l : list A) (i : Z) (j : nat) (a : A) :
  norm_index (length l) i = Ok j → l !! j = Some a → getitem l i = Ok a.
Proof. intros Hj Ha. unfold getitem. rewrite Hj. simpl. rewrite Ha. done. Qed.

(** [l[i] += d] alters one position and nothing else. *)
Lemma additem_alter (l : list Z) (i d : Z) (j : nat) :
  norm_index (length l) i = Ok j →
  additem l i d = Ok (alter (λ w, w + d) j l).
Proof.
  intros Hj. pose proof (norm_index_lt _ _ _ Hj) as Hlt.
  destruct (lookup_lt_is_Some_2 l j Hlt) as [old Hold].
  unfold additem. rewrite (getitem_lookup l i j old Hj Hold). simpl.
  unfold setitem. rewrite Hj. simpl. f_equal.
  apply list_eq. intros k. destruct (decide (k = j)) as [->|Hne].
  - rewrite list_lookup_insert_eq by done.
    rewrite list_lookup_alter_eq, Hold. done.
  - rewrite list_lookup_insert_ne by done.
    rewrite list_lookup_alter_ne by done. done.
Qed.

(** ** The [while] loop *)

Lemma border_loop_eq (st : Border) :
  border_loop st =
  if 0 <? extras st
  then let* st' := border_step st in border_loop st'
  else Ok st.
Proof.
  funelim (border_loop st).
  all: repeat match goal with
    | E : (0 <? extras _) = _ |- _ => rewrite E
    | E : border_step _ = _ |- _ => rewrite E
    end; done.
Qed.

Lemma border_loop_run (N k : nat) :
  ∀ (ws : list Z) (i : nat),
    length ws = N → (2 * (i + k) ≤ N)%nat →
    border_loop (mkBorder (2 * Z.of_nat k) ws (Z.of_nat i)) =
    Ok (mkBorder 0 (foldl (add_pair N) ws (seq i k)) (Z.of_nat (i + k))).
Proof.
  induction k as [|k IH]; intros ws i Hlen Hk; rewrite border_loop_eq.
  - simpl. rewrite Nat.add_0_r. done.
  - cbn [extras]. destruct (Z.ltb_spec 0 (2 * Z.of_nat (S k))); [|lia].
    unfold border_step. cbn [extras weights border_i].
    rewrite (additem_alter ws _ 1 i)
      by (rewrite <- (Nat2Z.id i) at 2; apply norm_index_nonneg; lia).
    cbn [bind].
    rewrite (additem_alter _ _ 1 (N - 1 - i)).
    2:{ rewrite length_alter, Hlen.
        rewrite <- (Nat2Z.id i) at 2. apply norm_index_neg. lia. }
    cbn [bind].
    replace (2 * Z.of_nat (S k) - 2) with (2 * Z.of_nat k) by lia.
    replace (Z.of_nat i + 1) with (Z.of_nat (S i)) by lia.
    rewrite IH.
    + cbn [seq foldl]. do 2 f_equal. lia.
    + unfold add1. rewrite !length_alter. done.
    + lia.
Qed.


(** ** From the code to the words of the specification *)

Lemma border_init_spec (self : ColorProfile) (n : Z) :
  colors self ≠ [] →
  let N := length (colors self) in
  let rem := n mod Z.of_nat N in
  border_init self n =
  Ok (mkBorder (if Z.odd rem then rem - 1 else rem)
        (if Z.odd rem
         then add1 (N / 2) (replicate N (n / Z.of_nat N))
         else replicate N (n / Z.of_nat N))
        0).
Proof.
  intros Hne N rem.
  assert (0 < N)%nat as HN by (subst N; destruct (colors self); simpl; [done|lia]).
  unfold border_init, floordiv, pymod, len. fold N.
  destruct (Z.eqb_spec 2 0) as [|_]; [lia|].
  destruct (Z.eqb_spec (Z.of_nat N) 0) as [|_]; [lia|].
  cbn [bind]. fold rem. rewrite Zmod_odd.
  unfold list_mul. rewrite Nat2Z.id.
  destruct (Z.odd rem); cbn [Z.eqb Pos.eqb]; [|done].
  rewrite (additem_alter _ _ 1 (N / 2)); [done|].
  rewrite length_replicate.
  rewrite <- (Nat2Z.id (N / 2)), Nat2Z.inj_div. simpl (Z.of_nat 2).
  apply norm_index_nonneg. split.
  - apply Z.div_pos; lia.
  - apply Z.div_lt_upper_bound; lia.
Qed.

(** The even remainder the loop starts from, as a number of turns. *)
Lemma even_remainder (N : nat) (n : Z) :
  (0 < N)%nat →
  let rem := n mod Z.of_nat N in
  let e := if Z.odd rem then rem - 1 else rem in
  e = 2 * Z.of_nat (Z.to_nat (e / 2)) ∧
  (2 * Z.to_nat (e / 2) + (if Z.odd rem then 1 else 0) ≤ N - 1)%nat.
Proof.
  intros HN rem e.
  assert (e ≤ rem - (if Z.odd rem then 1 else 0)) as Hle
    by (subst e; destruct (Z.odd rem); lia).
  assert (0 ≤ rem < Z.of_nat N) as Hrem by (apply Z.mod_pos_bound; lia).
  assert (e mod 2 = 0 ∧ 0 ≤ e < Z.of_nat N) as [Hev He].
  { subst e. pose proof (Zmod_odd rem) as Hodd.
    clearbody rem. destruct (Z.odd rem); Z.div_mod_to_equations; lia. }
  pose proof (Z.div_mod e 2 ltac:(lia)) as Hdm.
  assert (0 ≤ e / 2) by (apply Z.div_pos; lia).
  rewrite Z2Nat.id by done. destruct (Z.odd rem); lia.
Qed.

Lemma border_loop_spec (self : ColorProfile) (n : Z) :
  colors self ≠ [] →
  ∃ st0, border_init self n = Ok st0 ∧
    border_loop st0 =
    Ok (mkBorder 0 (spec_weights (length (colors self)) n)
          (extras st0 / 2)).
Proof.
  intros Hne. eexists. split; [apply border_init_spec; done|].
  set (N := length (colors self)).
  assert (0 < N)%nat as HN by (subst N; destruct (colors self); simpl; [done|lia]).
  destruct (even_remainder N n HN) as [He Hk].
  cbn zeta in He, Hk. cbn [extras].
  set (e := if Z.odd (n mod Z.of_nat N) then _ else _) in *.
  rewrite He at 1. change 0 with (Z.of_nat 0) at 1.
  rewrite (border_loop_run N).
  - unfold spec_weights. fold N. fold e. do 2 f_equal.
    rewrite Nat.add_0_l, Z2Nat.id; [done|]. apply Z.div_pos; lia.
  - destruct (Z.odd _); unfold add1; rewrite ?length_alter, length_replicate; done.
  - lia.
Qed.

Lemma length_weights_spec (self : ColorProfile) (n : Z) :
  colors self ≠ [] →
  length_weights self n = Ok (spec_weights (length (colors self)) n).
Proof.
  intros Hne. destruct (border_loop_spec self n Hne) as (st0 & H0 & Hl).
  unfold length_weights. rewrite H0. cbn [bind]. rewrite Hl. done.
Qed.

(** ** Expanding weights *)

Lemma for_enumerate_expand (cs : list RGB) :
  ∀ (ws : list Z) (i : nat) (acc : list RGB),
    (i + length ws ≤ length cs)%nat →
    for_enumerate
      (λ acc i w, let* c := getitem cs i in Ok (acc ++ list_mul c w))
      (Z.of_nat i) ws acc =
    Ok (acc ++ spec_expand (drop i cs) ws).
Proof.
  unfold spec_expand.
  induction ws as [|w ws IH]; intros i acc Hlen; cbn [for_enumerate].
  - rewrite zip_with_nil_r. cbn. rewrite app_nil_r. done.
  - cbn [length] in Hlen.
    destruct (lookup_lt_is_Some_2 cs i ltac:(lia)) as [c Hc].
    rewrite (getitem_lookup cs _ i c); [|rewrite <- (Nat2Z.id i) at 2;
      apply norm_index_nonneg; lia|done].
    cbn [bind]. replace (Z.of_nat i + 1) with (Z.of_nat (S i)) by lia.
    rewrite IH by lia. rewrite (drop_S cs c i Hc).
    cbn [zip_with concat]. rewrite <- app_assoc. done.
Qed.

Lemma with_weights_expand (self : ColorProfile) (ws : list Z) :
  (length ws ≤ length (colors self))%nat →
  with_weights self ws = Ok (spec_expand (colors self) ws).
Proof.
  intros Hlen. unfold with_weights. change 0 with (Z.of_nat 0).
  rewrite for_enumerate_expand by (simpl; lia). done.
Qed.

Lemma spec_expand_length (cs : list RGB) :
  ∀ ws : list Z,
    length ws = length cs → Forall (λ w, 0 ≤ w) ws →
    len (spec_expand cs ws) = sum ws.
Proof.
  unfold spec_expand, len.
  induction cs as [|c cs IH]; intros [|w ws] Hlen Hpos; try done.
  cbn [zip_with concat sum foldr]. rewrite length_app, length_replicate.
  apply Forall_cons in Hpos as [Hw Hws].
  rewrite Nat2Z.inj_add, IH by (simpl in Hlen; first [lia | done]).
  unfold sum. lia.
Qed.

(** ** The weights, position by position *)

Lemma add1_lookup (j i : nat) (ws : list Z) :
  add1 j ws !! i = (λ w, w + if decide (j = i) then 1 else 0) <$> ws !! i.
Proof.
  unfold add1. rewrite list_lookup_alter.
  destruct (decide (j = i)) as [->|_].
  - done.
  - destruct (ws !! i); simpl; [f_equal; lia|done].
Qed.

Lemma add1_length (j : nat) (ws : list Z) : length (add1 j ws) = length ws.
Proof. apply length_alter. Qed.

Lemma add_pair_length (N j : nat) (ws : list Z) :
  length (add_pair N ws j) = length ws.
Proof. unfold add_pair. rewrite !add1_length. done. Qed.

Lemma foldl_add_pair_length (N : nat) (js : list nat) :
  ∀ ws : list Z, length (foldl (add_pair N) ws js) = length ws.
Proof.
  induction js as [|j js IH]; intros ws; [done|].
  cbn [foldl]. rewrite IH. apply add_pair_length.
Qed.

(** After the turns [i .. i+k-1] a weight has grown by one for each of the
    two ends it belongs to. *)
Lemma foldl_add_pair_lookup (N k : nat) :
  ∀ (ws : list Z) (i j : nat),
    (i + k ≤ N)%nat → (j < N)%nat →
    foldl (add_pair N) ws (seq i k) !! j =
    (λ w, w + (if decide (i ≤ j < i + k)%nat then 1 else 0)
            + (if decide (N - i - k ≤ j < N - i)%nat then 1 else 0))
    <$> ws !! j.
Proof.
  induction k as [|k IH]; intros ws i j Hk Hj.
  - cbn [seq foldl]. repeat case_decide; try lia.
    destruct (ws !! j); simpl; [f_equal; lia|done].
  - cbn [seq foldl]. rewrite IH by lia.
    unfold add_pair. rewrite !add1_lookup.
    destruct (ws !! j) as [w|]; simpl; [f_equal|done].
    repeat case_decide; lia.
Qed.

Lemma sum_replicate (n : nat) (x : Z) : sum (replicate n x) = Z.of_nat n * x.
Proof. induction n as [|n IH]; [done|]. cbn [replicate sum foldr]. fold (sum (replicate n x)). lia. Qed.

Lemma sum_add1 (j : nat) :
  ∀ ws : list Z, (j < length ws)%nat → sum (add1 j ws) = sum ws + 1.
Proof.
  unfold add1, sum, alter.
  induction j as [|j IH]; intros [|w ws] Hj; simpl in *; try lia.
  rewrite IH by lia. lia.
Qed.

Lemma sum_foldl_add_pair (N k : nat) :
  ∀ (ws : list Z) (i : nat),
    length ws = N → (i + k ≤ N)%nat →
    sum (foldl (add_pair N) ws (seq i k)) = sum ws + 2 * Z.of_nat k.
Proof.
  induction k as [|k IH]; intros ws i Hlen Hk.
  - cbn [seq foldl]. lia.
  - cbn [seq foldl]. rewrite IH by (rewrite ?add_pair_length; lia).
    unfold add_pair. rewrite !sum_add1 by (rewrite ?add1_length; lia). lia.
Qed.

(** The weights add up to the requested length. *)
Lemma spec_weights_sum (N : nat) (n : Z) :
  (0 < N)%nat → sum (spec_weights N n) = n.
Proof.
  intros HN. destruct (even_remainder N n HN) as [He Hk]. cbn zeta in He, Hk.
  unfold spec_weights.
  set (e := if Z.odd (n mod Z.of_nat N) then _ else _) in *.
  rewrite (sum_foldl_add_pair N).
  - rewrite <- He. pose proof (Z.div_mod n (Z.of_nat N) ltac:(lia)) as Hdm.
    subst e. destruct (Z.odd _).
    + rewrite sum_add1, sum_replicate.
      * lia.
      * rewrite length_replicate. apply Nat.div_lt; lia.
    + rewrite sum_replicate. lia.
  - destruct (Z.odd _); rewrite ?add1_length, length_replicate; done.
  - lia.
Qed.

Lemma spec_weights_length (N : nat) (n : Z) : length (spec_weights N n) = N.
Proof.
  unfold spec_weights. rewrite foldl_add_pair_length.
  destruct (Z.odd _); rewrite ?add1_length, length_replicate; done.
Qed.

(** Each weight in closed form: the base, one more at the centre for an odd
    remainder, one more within [e/2] of either end. *)
Lemma spec_weights_lookup (N : nat) (n : Z) (j : nat) :
  (0 < N)%nat → (j < N)%nat →
  let rem := n mod Z.of_nat N in
  let k := Z.to_nat ((if Z.odd rem then rem - 1 else rem) / 2) in
  spec_weights N n !! j =
  Some (n / Z.of_nat N
        + (if Z.odd rem then if decide (N / 2 = j)%nat then 1 else 0 else 0)
        + (if decide (j < k)%nat then 1 else 0)
        + (if decide (N - k ≤ j)%nat then 1 else 0)).
Proof.
  intros HN Hj rem k. destruct (even_remainder N n HN) as [_ Hk].
  cbn zeta in Hk. fold rem in Hk. fold k in Hk.
  unfold spec_weights. fold rem. fold k.
  rewrite foldl_add_pair_lookup by lia.
  destruct (Z.odd rem).
  - rewrite add1_lookup, lookup_replicate_2 by done. simpl. f_equal.
    repeat case_decide; lia.
  - rewrite lookup_replicate_2 by done. simpl. f_equal.
    repeat case_decide; lia.
Qed.

(** ** The distribution: lengths, refinement, shape of the weights *)

Lemma nonempty_colors (self : ColorProfile) :
  1 ≤ len (colors self) → colors self ≠ [] ∧ (0 < length (colors self))%nat.
Proof. unfold len. destruct (colors self); simpl; [lia|]. split; [done|lia]. Qed.

Lemma spec_weights_nonneg (N : nat) (n : Z) :
  (0 < N)%nat → 0 ≤ n → Forall (λ w, 0 ≤ w) (spec_weights N n).
Proof.
  intros HN Hn. apply Forall_lookup_2. intros j w Hj.
  assert (j < N)%nat as HjN
    by (rewrite <- (spec_weights_length N n); eapply lookup_lt_Some; done).
  rewrite spec_weights_lookup in Hj by done. injection Hj as <-.
  assert (0 ≤ n / Z.of_nat N) by (apply Z.div_pos; lia).
  repeat case_decide; destruct (Z.odd _); lia.
Qed.

Lemma with_length_distribute (self : ColorProfile) (n : Z) :
  colors self ≠ [] →
  with_length self n = Ok (spec_distribute (colors self) n).
Proof.
  intros Hne. unfold with_length. rewrite length_weights_spec by done.
  cbn [bind]. apply with_weights_expand. rewrite spec_weights_length. done.
Qed.

Lemma with_length_len (self : ColorProfile) (n : Z) :
  1 ≤ len (colors self) → 0 ≤ n →
  ∃ cs, with_length self n = Ok cs ∧ len cs = n.
Proof.
  intros HN Hn. destruct (nonempty_colors self HN) as [Hne Hpos].
  eexists. split; [apply with_length_distribute; done|].
  unfold spec_distribute. rewrite spec_expand_length.
  - apply spec_weights_sum; done.
  - apply spec_weights_length.
  - apply spec_weights_nonneg; done.
Qed.

(** The worked cases: three colours over 10 and 11 characters, one colour
    over 7. *)
Example weights_3_10 : length_weights neutrois 10 = Ok [3; 4; 3].
Proof. by vm_compute. Qed.

Example weights_3_11 : length_weights neutrois 11 = Ok [4; 3; 4].
Proof. by vm_compute. Qed.

Example weights_1_7 :
  length_weights (mkColorProfile None [mkRGB 0 0 0]) 7 = Ok [7].
Proof. by vm_compute. Qed.

(** C1. For a palette of [N >= 1] colours and a length [n >= 0], [with_length]
    returns exactly [n] colours; and for [N] non-negative weights,
    [with_weights] returns as many colours as the weights add up to. *)
Theorem with_length_with_weights_len (self : ColorProfile) (n : Z)
    (ws : list Z) :
  1 ≤ len (colors self) → 0 ≤ n →
  length ws = length (colors self) → Forall (λ w, 0 ≤ w) ws →
  (∃ cs, with_length self n = Ok cs ∧ len cs = n) ∧
  (∃ cs, with_weights self ws = Ok cs ∧ len cs = sum ws).
Proof.
  intros HN Hn Hlen Hws. destruct (nonempty_colors self HN) as [Hne Hpos].
  split.
  - apply with_length_len; done.
  - eexists. split; [apply with_weights_expand; lia|].
    apply spec_expand_length; done.
Qed.

Lemma with_length_with_weights_len_witness :
  (1 ≤ len (colors neutrois) ∧ 0 ≤ 10 ∧
   length [3; 4; 3] = length (colors neutrois) ∧
   Forall (λ w, 0 ≤ w) [3; 4; 3]) ∧
  (∃ cs, with_length neutrois 10 = Ok cs ∧ len cs = 10) ∧
  (∃ cs, with_weights neutrois [3; 4; 3] = Ok cs ∧ len cs = sum [3; 4; 3]).
Proof.
  assert (1 ≤ len (colors neutrois)) as HN by (unfold len; simpl; lia).
  assert (0 ≤ 10) as Hn by lia.
  assert (length [3; 4; 3] = length (colors neutrois)) as Hlen by reflexivity.
  assert (Forall (λ w, 0 ≤ w) [3; 4; 3]) as Hws by (repeat constructor; lia).
  split; [done|].
  exact (with_length_with_weights_len neutrois 10 [3; 4; 3] HN Hn Hlen Hws).
Defined.

(** C2. For a palette of [N >= 1] colours and a length [n >= 0], [with_length]
    returns exactly the sequence the specification describes: weights all
    [n // N], one more at [N // 2] for an odd remainder, one more at [i] and
    [N-1-i] for [i] below half the even remainder left, and each colour
    repeated by its weight, in palette order. *)
Theorem with_length_refines_spec (self : ColorProfile) (n : Z) :
  1 ≤ len (colors self) → 0 ≤ n →
  with_length self n = Ok (spec_distribute (colors self) n).
Proof.
  intros HN _. apply with_length_distribute, nonempty_colors, HN.
Qed.

Lemma with_length_refines_spec_witness :
  (1 ≤ len (colors neutrois) ∧ 0 ≤ 11) ∧
  with_length neutrois 11 = Ok (spec_distribute (colors neutrois) 11).
Proof.
  assert (1 ≤ len (colors neutrois)) as HN by (unfold len; simpl; lia).
  assert (0 ≤ 11) as Hn by lia.
  split; [done|].
  exact (with_length_refines_spec neutrois 11 HN Hn).
Defined.

(** C9. For a palette of [N >= 1] colours and a length [n >= 0], every
    weight [with_length] computes is [n // N] or [n // N + 1]: no position
    is raised twice. *)
Theorem weights_base_or_succ (self : ColorProfile) (n : Z) :
  1 ≤ len (colors self) → 0 ≤ n →
  ∃ ws, length_weights self n = Ok ws ∧
    ∀ w, w ∈ ws →
      w = n / len (colors self) ∨ w = n / len (colors self) + 1.
Proof.
  intros HN _. destruct (nonempty_colors self HN) as [Hne Hpos].
  eexists. split; [apply length_weights_spec; done|].
  intros w [j Hj]%list_elem_of_lookup. unfold len.
  set (N := length (colors self)) in *.
  assert (j < N)%nat as HjN
    by (rewrite <- (spec_weights_length N n); eapply lookup_lt_Some; done).
  rewrite spec_weights_lookup in Hj by done. cbv zeta in Hj.
  apply (inj Some) in Hj. subst w.
  destruct (even_remainder N n Hpos) as [_ Hk]. cbv zeta in Hk.
  pose proof (Nat.div_mod_eq N 2) as Hdiv.
  pose proof (Nat.mod_upper_bound N 2 ltac:(lia)) as Hmod.
  set (k := Z.to_nat _) in *. set (c := (N / 2)%nat) in *.
  clearbody k c.
  destruct (Z.odd _); repeat case_decide; lia.
Qed.

Lemma weights_base_or_succ_witness :
  (1 ≤ len (colors neutrois) ∧ 0 ≤ 11) ∧
  ∃ ws, length_weights neutrois 11 = Ok ws ∧
    ∀ w, w ∈ ws →
      w = 11 / len (colors neutrois) ∨ w = 11 / len (colors neutrois) + 1.
Proof.
  assert (1 ≤ len (colors neutrois)) as HN by (unfold len; simpl; lia).
  assert (0 ≤ 11) as Hn by lia.
  split; [done|].
  exact (weights_base_or_succ neutrois 11 HN Hn).
Defined.

(** The weights of a two-colour palette over a single character are
    [[0, 1]]: the odd remainder goes to index [2 // 2 = 1], whose mirror is
    index 0. *)
Lemma weights_not_always_palindrome :
  1 ≤ len (colors autosexual) ∧ 0 ≤ 1 ∧ spacing autosexual = equal ∧
  ∃ ws, length_weights autosexual 1 = Ok ws ∧ ¬ palindrome ws.
Proof.
  split; [unfold len; simpl; lia|]. split; [lia|]. split; [done|].
  exists [0; 1]. split; [by vm_compute|].
  intros Hpal. specialize (Hpal 0%nat ltac:(simpl; lia)). discriminate Hpal.
Qed.

(** C3, amended. For a palette of [N >= 1] colours with [equal] spacing and
    a length [n >= 0], the weights [with_length] computes form a palindrome
    whenever [N] is odd or [n mod N] is even. *)
Theorem weights_palindrome (self : ColorProfile) (n : Z) :
  1 ≤ len (colors self) → 0 ≤ n → spacing self = equal →
  Z.odd (len (colors self)) = true ∨
    Z.even (n mod len (colors self)) = true →
  ∃ ws, length_weights self n = Ok ws ∧
    length ws = length (colors self) ∧ palindrome ws.
Proof.
  intros HN _ _ Hsym. destruct (nonempty_colors self HN) as [Hne Hpos].
  eexists. split; [apply length_weights_spec; done|].
  unfold len in Hsym. set (N := length (colors self)) in *.
  split; [apply spec_weights_length|].
  intros j. rewrite !spec_weights_length. intros Hj.
  rewrite !spec_weights_lookup by (done || lia). f_equal.
  destruct (even_remainder N n Hpos) as [_ Hk]. cbn zeta in Hk.
  pose proof (Nat.div_mod_eq N 2) as Hdiv.
  pose proof (Nat.mod_upper_bound N 2 ltac:(lia)) as Hmod.
  set (k := Z.to_nat _) in *. set (c := (N / 2)%nat) in *.
  clearbody k.
  rewrite <- Z.negb_odd in Hsym.
  destruct (Z.odd (n mod Z.of_nat N)).
  - destruct Hsym as [Hodd|?]; [|done].
    assert (N `mod` 2 = 1)%nat as HN2.
    { apply Nat2Z.inj. rewrite Nat2Z.inj_mod. simpl (Z.of_nat 2).
      rewrite Zmod_odd, Hodd. done. }
    clearbody c. repeat case_decide; lia.
  - clearbody c. repeat case_decide; lia.
Qed.

Lemma weights_palindrome_witness :
  (1 ≤ len (colors neutrois) ∧ 0 ≤ 10 ∧ spacing neutrois = equal ∧
   (Z.odd (len (colors neutrois)) = true ∨
    Z.even (10 mod len (colors neutrois)) = true)) ∧
  ∃ ws, length_weights neutrois 10 = Ok ws ∧
    length ws = length (colors neutrois) ∧ palindrome ws.
Proof.
  assert (1 ≤ len (colors neutrois)) as HN by (unfold len; simpl; lia).
  assert (0 ≤ 10) as Hn by lia.
  assert (spacing neutrois = equal) as Heq by reflexivity.
  assert (Z.odd (len (colors neutrois)) = true ∨
          Z.even (10 mod len (colors neutrois)) = true) as Hsym
    by (left; reflexivity).
  split; [done|].
  exact (weights_palindrome neutrois 10 HN Hn Heq Hsym).
Defined.

(** ** The turns of the [while] loop *)

Lemma additem_length (l l' : list Z) (i d : Z) :
  additem l i d = Ok l' → length l' = length l.
Proof.
  unfold additem, getitem, setitem.
  destruct (norm_index (length l) i) as [j|]; cbn [bind]; [|done].
  destruct (l !! j); cbn [bind]; [|done].
  intros [= <-]. apply length_insert.
Qed.

(** What one turn does to the loop variables. *)
Lemma border_step_Ok (st st' : Border) :
  border_step st = Ok st' →
  extras st' = extras st - 2 ∧ border_i st' = border_i st + 1 ∧
  length (weights st') = length (weights st).
Proof.
  unfold border_step.
  destruct (additem (weights st) _ _) as [ws|] eqn:E1; cbn [bind]; [|done].
  destruct (additem ws _ _) as [ws'|] eqn:E2; cbn [bind]; [|done].
  intros [= <-]. cbn [extras border_i weights].
  apply additem_length in E1, E2. repeat split; congruence.
Qed.

Lemma border_run_first (st st' st'' : Border) :
  0 < extras st → border_step st = Ok st' →
  border_run st' st'' → border_run st st''.
Proof.
  intros Hgt Hstep Hrun. induction Hrun as [|st1 st2 _ IH Hgt1 Hstep1].
  - eapply run_turn; [apply run_enter|done|done].
  - eapply run_turn; done.
Qed.

(** The state the loop ends in is one of the states it goes through. *)
Lemma border_loop_run_to (st st' : Border) :
  border_loop st = Ok st' → border_run st st' ∧ extras st' ≤ 0.
Proof.
  remember (Z.to_nat (extras st)) as m eqn:Hm.
  revert st Hm. induction (lt_wf m) as [m _ IH]. intros st Hm.
  rewrite border_loop_eq. destruct (Z.ltb_spec 0 (extras st)) as [Hgt|Hle].
  - destruct (border_step st) as [st1|] eqn:Hstep; cbn [bind]; [|done].
    intros Hloop. destruct (border_step_Ok _ _ Hstep) as (He & _ & _).
    destruct (IH (Z.to_nat (extras st1)) ltac:(lia) st1 eq_refl Hloop)
      as [Hrun Hend].
    split; [|done]. eapply border_run_first; done.
  - intros [= <-]. split; [apply run_enter|done].
Qed.

Lemma border_run_inv (N : Z) (st st' : Border) :
  border_inv N st → border_run st st' → border_inv N st'.
Proof.
  intros Hinv Hrun. induction Hrun as [|st1 st2 _ IH Hgt Hstep]; [done|].
  destruct (border_step_Ok _ _ Hstep) as (He & Hi & _).
  destruct IH as (H0 & Hev & Hi0 & Hb). unfold border_inv.
  rewrite He, Hi. clear Hstep He Hi Hinv.
  repeat split; try (Z.div_mod_to_equations; lia).
Qed.

(** C5. For a palette of [N >= 1] colours and a length [n >= 0], the loop of
    [with_length] ends with [extras] equal to 0; [extras] is never negative
    on the way, and at every turn [border_i <= N-1-border_i]. *)
Theorem border_loop_terminates (self : ColorProfile) (n : Z) :
  1 ≤ len (colors self) → 0 ≤ n →
  ∃ st0 st1,
    border_init self n = Ok st0 ∧
    border_loop st0 = Ok st1 ∧ border_run st0 st1 ∧ extras st1 = 0 ∧
    ∀ st, border_run st0 st →
      0 ≤ extras st ∧
      (0 < extras st →
       0 ≤ border_i st ≤ len (colors self) - 1 - border_i st).
Proof.
  intros HN _. destruct (nonempty_colors self HN) as [Hne Hpos].
  destruct (border_loop_spec self n Hne) as (st0 & Hinit & Hloop).
  destruct (border_loop_run_to _ _ Hloop) as [Hrun _].
  assert (border_inv (len (colors self)) st0) as Hinv.
  { pose proof (border_init_spec self n Hne) as Hspec. cbv zeta in Hspec.
    rewrite Hinit in Hspec. injection Hspec as ->.
    destruct (even_remainder _ n Hpos) as [He Hk]. cbv zeta in He, Hk.
    unfold border_inv, len. cbn [extras border_i].
    set (e := if Z.odd _ then _ else _) in *. clearbody e.
    repeat split; Z.div_mod_to_equations; lia. }
  exists st0, (mkBorder 0 (spec_weights (length (colors self)) n)
                 (extras st0 / 2)).
  do 4 (split; [done|]). intros st Hst.
  destruct (border_run_inv _ _ _ Hinv Hst) as (Hge & Hev & Hi0 & Hb). lia.
Qed.

Lemma border_loop_terminates_witness :
  (1 ≤ len (colors neutrois) ∧ 0 ≤ 11) ∧
  ∃ st0 st1,
    border_init neutrois 11 = Ok st0 ∧
    border_loop st0 = Ok st1 ∧ border_run st0 st1 ∧ extras st1 = 0 ∧
    ∀ st, border_run st0 st →
      0 ≤ extras st ∧
      (0 < extras st →
       0 ≤ border_i st ≤ len (colors neutrois) - 1 - border_i st).
Proof.
  assert (1 ≤ len (colors neutrois)) as HN by (unfold len; simpl; lia).
  assert (0 ≤ 11) as Hn by lia.
  split; [done|].
  exact (border_loop_terminates neutrois 11 HN Hn).
Defined.

(** ** Colouring a text *)

Section ColorText.
Context `{CU : ColorUtil}.
Variables (colorSeq : list RGB) (txt : str) (foreground space_only : bool).

Lemma color_text_step_piece (acc : str) (i : nat) (t : char) :
  txt !! i = Some t → (i < length colorSeq)%nat →
  color_text_step colorSeq txt foreground space_only acc (Z.of_nat i) t =
  Ok (acc ++ piece colorSeq txt foreground space_only i t).
Proof.
  intros Ht Hi. unfold color_text_step, piece.
  destruct (space_only && negb (t =? space)%N).
  - destruct i as [|i].
    + rewrite bool_decide_eq_false_2 by lia. done.
    + destruct (Z.ltb_spec 0 (Z.of_nat (S i))) as [_|]; [|lia].
      destruct (lookup_lt_is_Some_2 txt i) as [prev Hprev].
      { apply lookup_lt_Some in Ht. lia. }
      rewrite (getitem_lookup txt _ i prev).
      * cbn [bind]. rewrite bool_decide_eq_true_2 by lia.
        cbn [andb]. assert (S i - 1 = i)%nat as -> by lia. rewrite Hprev.
        destruct (N.eqb_spec prev space) as [->|Hne].
        -- rewrite bool_decide_eq_true_2 by done. rewrite <- app_assoc. done.
        -- rewrite bool_decide_eq_false_2 by congruence. done.
      * apply lookup_lt_Some in Ht.
        replace (Z.of_nat (S i) - 1) with (Z.of_nat i) by lia.
        rewrite <- (Nat2Z.id i) at 2. apply norm_index_nonneg. lia.
      * done.
  - destruct (lookup_lt_is_Some_2 colorSeq i Hi) as [c Hc].
    rewrite (getitem_lookup colorSeq _ i c).
    + rewrite Hc. done.
    + rewrite <- (Nat2Z.id i) at 2. apply norm_index_nonneg. lia.
    + done.
Qed.

Lemma for_enumerate_pieces :
  ∀ (l : str) (i : nat) (acc : str),
    (∀ j t, l !! j = Some t → txt !! (i + j)%nat = Some t) →
    (i + length l ≤ length colorSeq)%nat →
    for_enumerate (color_text_step colorSeq txt foreground space_only)
      (Z.of_nat i) l acc =
    Ok (acc ++ concat (imap (λ j, piece colorSeq txt foreground space_only
                                    (i + j)) l)).
Proof.
  induction l as [|t l IH]; intros i acc Hl Hlen; cbn [for_enumerate].
  - cbn. rewrite app_nil_r. done.
  - cbn [length] in Hlen.
    rewrite color_text_step_piece;
      [|rewrite <- (Nat.add_0_r i); apply Hl; done|lia].
    cbn [bind]. replace (Z.of_nat i + 1) with (Z.of_nat (S i)) by lia.
    rewrite IH.
    + rewrite imap_cons. cbn [concat]. rewrite Nat.add_0_r, <- app_assoc.
      do 4 f_equal. apply imap_ext. intros j x _. cbn. f_equal. lia.
    + intros j x Hj. replace (S i + j)%nat with (i + S j)%nat by lia.
      apply Hl. done.
    + lia.
Qed.

End ColorText.

(** The output of [color_text], character by character. *)
Lemma color_text_pieces `{CU : ColorUtil} (self : ColorProfile) (txt : str)
    (foreground space_only : bool) :
  colors self ≠ [] →
  ∃ colorSeq,
    with_length self (len txt) = Ok colorSeq ∧
    length colorSeq = length txt ∧
    color_text self txt foreground space_only =
    Ok (concat (imap (piece colorSeq txt foreground space_only) txt)
        ++ reset).
Proof.
  intros Hne.
  assert (1 ≤ len (colors self)) as HN
    by (unfold len; destruct (colors self); simpl; [done|lia]).
  destruct (with_length_len self (len txt) HN) as (cs & Hcs & Hlen).
  { unfold len. lia. }
  exists cs.
  assert (length cs = length txt) as Hlen' by (unfold len in Hlen; lia).
  split; [done|]. split; [done|].
  unfold color_text. rewrite Hcs. cbn [bind]. change 0 with (Z.of_nat 0).
  rewrite for_enumerate_pieces by (simpl; first [done | lia]).
  done.
Qed.

(** C4. For a palette of [N >= 1] colours, any text and any selector,
    [color_text] returns one piece per character followed by the reset
    sequence. With [space_only] a character other than a space is emitted
    bare, after the reset sequence exactly when it is not the first and the
    character before it is a space. A space, and with [space_only] off any
    character, is emitted after the escape sequence of the colour that
    [with_length (len txt)] has at its index. *)
Theorem color_text_characters `{CU : ColorUtil} (self : ColorProfile)
    (txt : str) (foreground space_only : bool) :
  1 ≤ len (colors self) →
  ∃ colorSeq pieces,
    with_length self (len txt) = Ok colorSeq ∧
    color_text self txt foreground space_only = Ok (concat pieces ++ reset) ∧
    length pieces = length txt ∧
    ∀ (i : nat) (t : char), txt !! i = Some t →
      (space_only = true → t ≠ space →
       ((0 < i)%nat ∧ txt !! (i - 1)%nat = Some space →
        pieces !! i = Some (reset ++ [t])) ∧
       (¬ ((0 < i)%nat ∧ txt !! (i - 1)%nat = Some space) →
        pieces !! i = Some [t])) ∧
      (space_only = false ∨ t = space →
       ∃ c, colorSeq !! i = Some c ∧
         pieces !! i = Some (to_ansi_rgb c foreground ++ [t])).
Proof.
  intros HN. destruct (nonempty_colors self HN) as [Hne _].
  destruct (color_text_pieces self txt foreground space_only Hne)
    as (cs & Hcs & Hlen & Htxt).
  exists cs, (imap (piece cs txt foreground space_only) txt).
  split; [done|]. split; [done|]. split; [apply length_imap|].
  intros i t Ht. rewrite list_lookup_imap, Ht. cbn [fmap option_fmap option_map].
  unfold piece. split.
  - intros -> Hsp. apply N.eqb_neq in Hsp. rewrite Hsp. cbn [andb negb].
    split; intros Hprev.
    + destruct Hprev. rewrite !bool_decide_eq_true_2 by done. done.
    + destruct (bool_decide_reflect (0 < i)%nat);
        destruct (bool_decide_reflect (txt !! (i - 1)%nat = Some space));
        cbn [andb]; tauto.
  - intros Hcol.
    destruct (lookup_lt_is_Some_2 cs i) as [c Hc].
    { rewrite Hlen. eapply lookup_lt_Some. done. }
    exists c. split; [done|]. rewrite Hc.
    destruct Hcol as [->| ->]; [done|].
    rewrite N.eqb_refl, andb_false_r. done.
Qed.

Lemma color_text_characters_witness :
  1 ≤ len (colors neutrois) ∧
  ∃ colorSeq pieces,
    with_length neutrois (len (lit "a b")) = Ok colorSeq ∧
    @color_text spec_color_util neutrois (lit "a b") true true =
      Ok (concat pieces ++ reset) ∧
    length pieces = length (lit "a b") ∧
    ∀ (i : nat) (t : char), lit "a b" !! i = Some t →
      (true = true → t ≠ space →
       ((0 < i)%nat ∧ lit "a b" !! (i - 1)%nat = Some space →
        pieces !! i = Some (reset ++ [t])) ∧
       (¬ ((0 < i)%nat ∧ lit "a b" !! (i - 1)%nat = Some space) →
        pieces !! i = Some [t])) ∧
      (true = false ∨ t = space →
       ∃ c, colorSeq !! i = Some c ∧
         pieces !! i = Some (@to_ansi_rgb spec_color_util c true ++ [t])).
Proof.
  assert (1 ≤ len (colors neutrois)) as HN by (unfold len; simpl; lia).
  split; [done|].
  exact (@color_text_characters spec_color_util neutrois (lit "a b")
           true true HN).
Defined.

(** With the escapes of [spec_to_ansi_rgb], a bare character, with or
    without the reset sequence before it, does not start with a colour
    escape. *)
Lemma bare_piece_no_escape (c : RGB) (foreground : bool) (t : char) :
  ¬ (spec_to_ansi_rgb c foreground `prefix_of` [t]) ∧
  ¬ (spec_to_ansi_rgb c foreground `prefix_of` reset ++ [t]).
Proof.
  split; intros [k Hk]; destruct foreground; cbn in Hk; discriminate Hk.
Qed.

(** C10. With [space_only], only [' '] (U+0020) counts as a space: for any
    palette and text, a character other than [' '] (a tab or a newline for
    instance) is emitted bare or after the reset sequence, never after a
    colour escape, and a character equal to [' '] is emitted after the
    escape sequence of its colour. *)
Theorem space_only_colours_spaces `{CU : ColorUtil} (self : ColorProfile)
    (txt : str) (foreground : bool) :
  1 ≤ len (colors self) →
  ∃ colorSeq pieces,
    with_length self (len txt) = Ok colorSeq ∧
    color_text self txt foreground true = Ok (concat pieces ++ reset) ∧
    length pieces = length txt ∧
    ∀ (i : nat) (t : char), txt !! i = Some t →
      (t ≠ 32%N →
       pieces !! i = Some [t] ∨ pieces !! i = Some (reset ++ [t])) ∧
      (t = 32%N →
       ∃ c, colorSeq !! i = Some c ∧
         pieces !! i = Some (to_ansi_rgb c foreground ++ [t])).
Proof.
  intros HN. destruct (nonempty_colors self HN) as [Hne _].
  destruct (color_text_pieces self txt foreground true Hne)
    as (cs & Hcs & Hlen & Htxt).
  exists cs, (imap (piece cs txt foreground true) txt).
  split; [done|]. split; [done|]. split; [apply length_imap|].
  intros i t Ht. rewrite list_lookup_imap, Ht. cbn [fmap option_fmap option_map].
  unfold piece, space. split.
  - intros Hsp. apply N.eqb_neq in Hsp. rewrite Hsp. cbn [andb negb].
    destruct (_ && _); [right|left]; done.
  - intros ->. cbn [N.eqb Pos.eqb andb negb].
    destruct (lookup_lt_is_Some_2 cs i) as [c Hc].
    { rewrite Hlen. eapply lookup_lt_Some. done. }
    exists c. rewrite Hc. done.
Qed.

Lemma space_only_colours_spaces_witness :
  1 ≤ len (colors neutrois) ∧
  ∃ colorSeq pieces,
    with_length neutrois (len [97; 9; 32; 10]%N) = Ok colorSeq ∧
    @color_text spec_color_util neutrois [97; 9; 32; 10]%N false true =
      Ok (concat pieces ++ reset) ∧
    length pieces = length [97; 9; 32; 10]%N ∧
    ∀ (i : nat) (t : char), [97; 9; 32; 10]%N !! i = Some t →
      (t ≠ 32%N →
       pieces !! i = Some [t] ∨ pieces !! i = Some (reset ++ [t])) ∧
      (t = 32%N →
       ∃ c, colorSeq !! i = Some c ∧
         pieces !! i = Some (@to_ansi_rgb spec_color_util c false ++ [t])).
Proof.
  assert (1 ≤ len (colors neutrois)) as HN by (unfold len; simpl; lia).
  split; [done|].
  exact (@space_only_colours_spaces spec_color_util neutrois
           [97; 9; 32; 10]%N false HN).
Defined.

(** C6. For a palette of [N >= 1] colours and either value of the two
    flags, [color_text] on the empty string returns the reset sequence
    ['\033[0m'] and nothing else, and [with_length 0] returns the empty
    sequence; neither raises. *)
Theorem color_text_empty `{CU : ColorUtil} (self : ColorProfile)
    (foreground space_only : bool) :
  1 ≤ len (colors self) →
  color_text self [] foreground space_only = Ok [27; 91; 48; 109]%N ∧
  with_length self 0 = Ok [].
Proof.
  intros HN.
  destruct (with_length_len self 0 HN ltac:(lia)) as (cs & Hcs & Hlen).
  assert (cs = []) as -> by (destruct cs; [done|unfold len in Hlen; simpl in Hlen; lia]).
  split; [|done]. unfold color_text. change (len []) with 0.
  rewrite Hcs. done.
Qed.

Lemma color_text_empty_witness :
  1 ≤ len (colors neutrois) ∧
  @color_text spec_color_util neutrois [] true false =
    Ok [27; 91; 48; 109]%N ∧
  with_length neutrois 0 = Ok [].
Proof.
  assert (1 ≤ len (colors neutrois)) as HN by (unfold len; simpl; lia).
  split; [done|].
  exact (@color_text_empty spec_color_util neutrois true false HN).
Defined.

(** ** Building a profile *)

Lemma from_hex_all_length `{CU : ColorUtil} (l : list str) :
  ∀ cs, from_hex_all l = Ok cs → length cs = length l.
Proof.
  induction l as [|c l IH]; intros cs; cbn [from_hex_all].
  - intros [= <-]. done.
  - destruct (from_hex c); cbn [bind]; [|done].
    destruct (from_hex_all l) as [xs|]; cbn [bind]; [|done].
    intros [= <-]. cbn [length]. rewrite (IH xs); done.
Qed.

(** C7. Building a [ColorProfile] from no colours raises (an [IndexError],
    from [colors[0]]), whichever kind of list is given; so every profile
    that is built has [N >= 1] colours, and [with_length] never divides by
    zero on it. *)
Theorem init_rejects_empty `{CU : ColorUtil} :
  __init__ (Strs []) = Raise IndexError ∧
  __init__ (RGBs []) = Raise IndexError ∧
  ∀ (cl : ColorList) (self : ColorProfile),
    __init__ cl = Ok self →
    1 ≤ len (colors self) ∧
    ∀ n : Z, ∃ cs, with_length self n = Ok cs.
Proof.
  split; [done|]. split; [done|].
  intros cl self Hinit.
  assert (colors self ≠ []) as Hne.
  { destruct cl as [[|c l]|[|c l]]; try discriminate Hinit.
    - unfold __init__ in Hinit. cbn [getitem norm_index bind] in Hinit.
      change (getitem (c :: l) 0) with (Ok c) in Hinit. cbn [bind] in Hinit.
      destruct (from_hex_all (c :: l)) as [cs|] eqn:E; cbn [bind] in Hinit;
        [|done].
      injection Hinit as <-. cbn [colors].
      apply from_hex_all_length in E. destruct cs; [done|done].
    - injection Hinit as <-. done. }
  split.
  - unfold len. destruct (colors self); [done|]. cbn [length]. lia.
  - intros n. eexists. apply with_length_distribute. done.
Qed.

Lemma init_rejects_empty_witness :
  @__init__ spec_color_util
    (Strs [lit "#FFFFFF"; lit "#1F9F00"; lit "#000000"]) = Ok neutrois ∧
  1 ≤ len (colors neutrois) ∧
  ∀ n : Z, ∃ cs, with_length neutrois n = Ok cs.
Proof.
  assert (@__init__ spec_color_util
            (Strs [lit "#FFFFFF"; lit "#1F9F00"; lit "#000000"]) =
          Ok neutrois) as Hinit by reflexivity.
  split; [done|].
  exact (proj2 (proj2 (@init_rejects_empty spec_color_util)) _ _ Hinit).
Defined.

(** ** The table *)

(** C8. The [PRESETS] display writes exactly one key twice,
    ['biromantic alt 2']; the table that is built binds it to the later of
    its two entries, ['#740194', '#AEB1AA', '#FFFFFF', '#AEB1AA',
    '#740194'], the earlier one being overwritten. *)
Theorem presets_duplicate_key :
  duplicated_keys PRESETS_items = [lit "biromantic alt 2"] ∧
  items_of (lit "biromantic alt 2") PRESETS_items =
    [ [lit "#8869A5"; lit "#D8A7D8"; lit "#FFFFFF"; lit "#FDB18D";
       lit "#151638"];
      [lit "#740194"; lit "#AEB1AA"; lit "#FFFFFF"; lit "#AEB1AA";
       lit "#740194"] ] ∧
  ∃ d self,
    PRESETS = Ok d ∧ d !! lit "biromantic alt 2" = Some self ∧
    raw self = Some [lit "#740194"; lit "#AEB1AA"; lit "#FFFFFF";
                     lit "#AEB1AA"; lit "#740194"].
Proof.
  split; [by vm_compute|]. split; [by vm_compute|].
  assert (preset (lit "biromantic alt 2") =
          Some (mkColorProfile
                  (Some [lit "#740194"; lit "#AEB1AA"; lit "#FFFFFF";
                         lit "#AEB1AA"; lit "#740194"])
                  [mkRGB 116 1 148; mkRGB 174 177 170; mkRGB 255 255 255;
                   mkRGB 174 177 170; mkRGB 116 1 148])) as Hp
    by (vm_compute; reflexivity).
  unfold preset in Hp. destruct PRESETS as [d|]; [|done].
  eexists d, _. split; [done|]. split; [exact Hp|]. done.
Qed.

(** * Further properties of the profile *)

(** ** [with_weights] beyond its intended use *)

Lemma getitem_past_end {A} (l : list A) (i : Z) :
  Z.of_nat (length l) ≤ i → getitem l i = Raise IndexError.
Proof.
  intros Hi. unfold getitem, norm_index.
  destruct (Z.ltb_spec i 0); [lia|].
  destruct (Z.ltb_spec i 0); [lia|].
  destruct (Z.leb_spec (Z.of_nat (length l)) i); [|lia]. done.
Qed.

Lemma for_enumerate_overrun (cs : list RGB) :
  ∀ (ws : list Z) (i : nat) (acc : list RGB),
    (i ≤ length cs < i + length ws)%nat →
    for_enumerate
      (λ acc i w, let* c := getitem cs i in Ok (acc ++ list_mul c w))
      (Z.of_nat i) ws acc = Raise IndexError.
Proof.
  induction ws as [|w ws IH]; intros i acc Hi; cbn [length] in Hi; [lia|].
  cbn [for_enumerate].
  destruct (decide (i = length cs)) as [->|Hne].
  - rewrite getitem_past_end by lia. done.
  - destruct (lookup_lt_is_Some_2 cs i ltac:(lia)) as [c Hc].
    rewrite (getitem_lookup cs _ i c); [|rewrite <- (Nat2Z.id i) at 2;
      apply norm_index_nonneg; lia|done].
    cbn [bind]. replace (Z.of_nat i + 1) with (Z.of_nat (S i)) by lia.
    apply IH. lia.
Qed.

(** X1. Given more weights than the palette has colours, [with_weights]
    raises [IndexError], whatever the weights are (zeros included). *)
Theorem with_weights_too_many (self : ColorProfile) (ws : list Z) :
  (length (colors self) < length ws)%nat →
  with_weights self ws = Raise IndexError.
Proof.
  intros Hlen. unfold with_weights. change 0 with (Z.of_nat 0).
  apply for_enumerate_overrun. simpl. lia.
Qed.

Lemma with_weights_too_many_witness :
  (length (colors autosexual) < length [0; 0; 0]%Z)%nat ∧
  with_weights autosexual [0; 0; 0] = Raise IndexError.
Proof.
  assert (length (colors autosexual) < length [0; 0; 0]%Z)%nat as Hlen
    by (simpl; lia).
  split; [done|].
  exact (with_weights_too_many autosexual [0; 0; 0] Hlen).
Defined.

Lemma spec_expand_length_max (cs : list RGB) :
  ∀ ws : list Z,
    (length ws ≤ length cs)%nat →
    len (spec_expand cs ws) = sum (Z.max 0 <$> ws).
Proof.
  unfold spec_expand, len.
  induction cs as [|c cs IH]; intros [|w ws] Hlen; try done.
  - cbn [length] in Hlen. lia.
  - cbn [zip_with concat fmap list_fmap sum foldr].
    rewrite length_app, length_replicate, Nat2Z.inj_add.
    rewrite IH by (cbn [length] in Hlen; lia). unfold sum. lia.
Qed.

Lemma spec_expand_elem_of (cs : list RGB) (c : RGB) :
  ∀ ws : list Z, c ∈ spec_expand cs ws → c ∈ cs.
Proof.
  unfold spec_expand.
  induction cs as [|c' cs IH]; intros [|w ws]; cbn [zip_with concat];
    try (intros H; by apply elem_of_nil in H).
  intros [Hc|Hc]%elem_of_app.
  - apply elem_of_replicate in Hc as [-> _]. left.
  - right. eapply IH. done.
Qed.

(** X2. Given at most as many weights as colours, [with_weights] returns a
    sequence of palette colours in which a negative weight counts for
    nothing: its length is the sum of the positive weights. *)
Theorem with_weights_clamps (self : ColorProfile) (ws : list Z) :
  (length ws ≤ length (colors self))%nat →
  ∃ cs, with_weights self ws = Ok cs ∧
    len cs = sum (Z.max 0 <$> ws) ∧
    ∀ c, c ∈ cs → c ∈ colors self.
Proof.
  intros Hlen. eexists. split; [apply with_weights_expand; done|]. split.
  - apply spec_expand_length_max. done.
  - intros c. apply spec_expand_elem_of.
Qed.

Lemma with_weights_clamps_witness :
  (length [2; -5]%Z ≤ length (colors neutrois))%nat ∧
  ∃ cs, with_weights neutrois [2; -5] = Ok cs ∧
    len cs = sum (Z.max 0 <$> [2; -5]) ∧
    ∀ c, c ∈ cs → c ∈ colors neutrois.
Proof.
  assert (length [2; -5]%Z ≤ length (colors neutrois))%nat as Hlen
    by (simpl; lia).
  split; [done|].
  exact (with_weights_clamps neutrois [2; -5] Hlen).
Defined.

(** ** [with_length] at the edges *)

(** X3. On a profile left without colours, [with_length] raises
    [ZeroDivisionError] for every length, and so does [color_text] for
    every text, the empty one included. *)
Theorem empty_palette_divides_by_zero `{CU : ColorUtil}
    (self : ColorProfile) (n : Z) (txt : str)
    (foreground space_only : bool) :
  colors self = [] →
  with_length self n = Raise ZeroDivisionError ∧
  color_text self txt foreground space_only = Raise ZeroDivisionError.
Proof.
  intros Hnil.
  assert (∀ m, with_length self m = Raise ZeroDivisionError) as Hwl.
  { intros m. unfold with_length, length_weights, border_init.
    rewrite Hnil. done. }
  split; [apply Hwl|]. unfold color_text. rewrite Hwl. done.
Qed.

Lemma empty_palette_divides_by_zero_witness :
  colors (mkColorProfile None []) = [] ∧
  with_length (mkColorProfile None []) 5 = Raise ZeroDivisionError ∧
  @color_text spec_color_util (mkColorProfile None []) [] true false =
    Raise ZeroDivisionError.
Proof.
  assert (colors (mkColorProfile None []) = []) as Hnil by reflexivity.
  split; [done|].
  exact (@empty_palette_divides_by_zero spec_color_util
           (mkColorProfile None []) 5 [] true false Hnil).
Defined.

Lemma spec_weights_bounds (N : nat) (n : Z) (w : Z) :
  (0 < N)%nat → w ∈ spec_weights N n →
  n / Z.of_nat N ≤ w ≤ n / Z.of_nat N + 1.
Proof.
  intros HN [j Hj]%list_elem_of_lookup.
  assert (j < N)%nat as HjN
    by (rewrite <- (spec_weights_length N n); eapply lookup_lt_Some; done).
  rewrite spec_weights_lookup in Hj by done. cbv zeta in Hj.
  apply (inj Some) in Hj. subst w.
  destruct (even_remainder N n HN) as [_ Hk]. cbv zeta in Hk.
  pose proof (Nat.div_mod_eq N 2) as Hdiv.
  pose proof (Nat.mod_upper_bound N 2 ltac:(lia)) as Hmod.
  set (k := Z.to_nat _) in *. set (c := (N / 2)%nat) in *.
  clearbody k c.
  destruct (Z.odd _); repeat case_decide; lia.
Qed.

Lemma spec_expand_nonpos (cs : list RGB) :
  ∀ ws : list Z, Forall (λ w, w ≤ 0) ws → spec_expand cs ws = [].
Proof.
  unfold spec_expand.
  induction cs as [|c cs IH]; intros [|w ws] Hws; try done.
  apply Forall_cons in Hws as [Hw Hws]. cbn [zip_with concat].
  rewrite IH by done. replace (Z.to_nat w) with 0%nat by lia. done.
Qed.

(** X4. For a palette of [N >= 1] colours, a negative length is no error:
    [with_length] returns the empty sequence. *)
Theorem with_length_negative (self : ColorProfile) (n : Z) :
  1 ≤ len (colors self) → n < 0 → with_length self n = Ok [].
Proof.
  intros HN Hn. destruct (nonempty_colors self HN) as [Hne Hpos].
  rewrite with_length_distribute by done. f_equal.
  apply spec_expand_nonpos, Forall_forall. intros w Hw.
  apply spec_weights_bounds in Hw; [|done].
  assert (n / Z.of_nat (length (colors self)) < 0)
    by (apply Z.div_lt_upper_bound; lia).
  lia.
Qed.

Lemma with_length_negative_witness :
  (1 ≤ len (colors neutrois) ∧ -4 < 0) ∧ with_length neutrois (-4) = Ok [].
Proof.
  assert (1 ≤ len (colors neutrois)) as HN by (unfold len; simpl; lia).
  assert (-4 < 0) as Hn by lia.
  split; [done|].
  exact (with_length_negative neutrois (-4) HN Hn).
Defined.

(** X5. With a single colour, all the length goes to it: [with_length]
    returns that colour [n] times. *)
Theorem with_length_single (self : ColorProfile) (c : RGB) (n : Z) :
  colors self = [c] → with_length self n = Ok (replicate (Z.to_nat n) c).
Proof.
  intros Hc. rewrite with_length_distribute by (rewrite Hc; done).
  rewrite Hc. unfold spec_distribute, spec_weights. cbn [length].
  change (Z.of_nat 1) with 1. rewrite Z.mod_1_r, Z.div_1_r.
  cbn [Z.odd]. change (Z.to_nat (0 / 2)) with 0%nat.
  cbn [seq foldl replicate].
  unfold spec_expand. cbn [zip_with concat]. rewrite app_nil_r. done.
Qed.

Lemma with_length_single_witness :
  colors (mkColorProfile None [mkRGB 255 0 0]) = [mkRGB 255 0 0] ∧
  with_length (mkColorProfile None [mkRGB 255 0 0]) 7 =
    Ok (replicate (Z.to_nat 7) (mkRGB 255 0 0)).
Proof.
  assert (colors (mkColorProfile None [mkRGB 255 0 0]) = [mkRGB 255 0 0])
    as Hc by reflexivity.
  split; [done|].
  exact (with_length_single _ (mkRGB 255 0 0) 7 Hc).
Defined.

(** X6. When the length is a multiple of the number of colours, every
    colour gets the same weight, [n // N]. *)
Theorem weights_even_split (self : ColorProfile) (n : Z) :
  1 ≤ len (colors self) → n mod len (colors self) = 0 →
  length_weights self n =
  Ok (replicate (length (colors self)) (n / len (colors self))).
Proof.
  intros HN Hmod. destruct (nonempty_colors self HN) as [Hne _].
  rewrite length_weights_spec by done. unfold len in Hmod.
  unfold spec_weights, len. rewrite Hmod. done.
Qed.

Lemma weights_even_split_witness :
  (1 ≤ len (colors neutrois) ∧ 12 mod len (colors neutrois) = 0) ∧
  length_weights neutrois 12 =
  Ok (replicate (length (colors neutrois)) (12 / len (colors neutrois))).
Proof.
  assert (1 ≤ len (colors neutrois)) as HN by (unfold len; simpl; lia).
  assert (12 mod len (colors neutrois) = 0) as Hmod by reflexivity.
  split; [done|].
  exact (weights_even_split neutrois 12 HN Hmod).
Defined.

(** X7. [N] more characters give every colour one more: the weights for
    [n + N] are the weights for [n], each raised by one. *)
Theorem weights_add_palette (self : ColorProfile) (n : Z) :
  1 ≤ len (colors self) →
  ∃ ws, length_weights self n = Ok ws ∧
    length_weights self (n + len (colors self)) = Ok ((λ w, w + 1) <$> ws).
Proof.
  intros HN. destruct (nonempty_colors self HN) as [Hne Hpos].
  eexists. split; [apply length_weights_spec; done|].
  rewrite length_weights_spec by done. f_equal. unfold len.
  set (N := length (colors self)) in *.
  apply list_eq. intros j. rewrite list_lookup_fmap.
  destruct (decide (j < N)%nat) as [Hj|Hj].
  - rewrite !spec_weights_lookup by done. cbv zeta.
    replace (n + Z.of_nat N) with (n + 1 * Z.of_nat N) by lia.
    rewrite Z.mod_add, Z.div_add by lia. cbn [fmap option_fmap option_map].
    f_equal. lia.
  - rewrite !lookup_ge_None_2 by (rewrite spec_weights_length; lia). done.
Qed.

Lemma weights_add_palette_witness :
  1 ≤ len (colors neutrois) ∧
  ∃ ws, length_weights neutrois 10 = Ok ws ∧
    length_weights neutrois (10 + len (colors neutrois)) =
    Ok ((λ w, w + 1) <$> ws).
Proof.
  assert (1 ≤ len (colors neutrois)) as HN by (unfold len; simpl; lia).
  split; [done|].
  exact (weights_add_palette neutrois 10 HN).
Defined.

(** X8. The weights [with_length] computes are one per colour and add up
    to the length, for any length; none is negative when the length is
    not. *)
Theorem weights_sum_to_length (self : ColorProfile) (n : Z) :
  1 ≤ len (colors self) →
  ∃ ws, length_weights self n = Ok ws ∧
    length ws = length (colors self) ∧ sum ws = n ∧
    (0 ≤ n → Forall (λ w, 0 ≤ w) ws).
Proof.
  intros HN. destruct (nonempty_colors self HN) as [Hne Hpos].
  eexists. split; [apply length_weights_spec; done|].
  split; [apply spec_weights_length|]. split.
  - apply spec_weights_sum. done.
  - apply spec_weights_nonneg. done.
Qed.

Lemma weights_sum_to_length_witness :
  1 ≤ len (colors neutrois) ∧
  ∃ ws, length_weights neutrois (-7) = Ok ws ∧
    length ws = length (colors neutrois) ∧ sum ws = -7 ∧
    (0 ≤ -7 → Forall (λ w, 0 ≤ w) ws).
Proof.
  assert (1 ≤ len (colors neutrois)) as HN by (unfold len; simpl; lia).
  split; [done|].
  exact (weights_sum_to_length neutrois (-7) HN).
Defined.

(** X9. Each weight in closed form: with [rem = n mod N], the weight at
    index [j] is [n // N], plus one at index [N // 2] when [rem] is odd,
    plus one within [rem // 2] of the left end, plus one within [rem // 2]
    of the right end. *)
Theorem weight_at (self : ColorProfile) (n : Z) (j : nat) :
  1 ≤ len (colors self) → (j < length (colors self))%nat →
  let N := len (colors self) in
  let rem := n mod N in
  ∃ ws, length_weights self n = Ok ws ∧
    ws !! j =
    Some (n / N
          + (if Z.odd rem && (Z.of_nat j =? N / 2) then 1 else 0)
          + (if Z.of_nat j <? rem / 2 then 1 else 0)
          + (if N - rem / 2 <=? Z.of_nat j then 1 else 0)).
Proof.
  intros HN Hj N rem. destruct (nonempty_colors self HN) as [Hne Hpos].
  eexists. split; [apply length_weights_spec; done|].
  rewrite spec_weights_lookup by done. cbv zeta. f_equal.
  subst N rem. unfold len. set (N := length (colors self)) in *.
  destruct (even_remainder N n Hpos) as [He Hk]. cbv zeta in He, Hk.
  set (rem := n mod Z.of_nat N) in *.
  assert (Z.of_nat (Z.to_nat ((if Z.odd rem then rem - 1 else rem) / 2)) =
          rem / 2) as Hhalf.
  { pose proof (Zmod_odd rem) as Hodd. clearbody rem.
    destruct (Z.odd rem); Z.div_mod_to_equations; lia. }
  set (k := Z.to_nat _) in *. clearbody k. rewrite <- Hhalf.
  assert (Z.of_nat (N / 2) = Z.of_nat N / 2) as Hc
    by (rewrite Nat2Z.inj_div; done).
  rewrite <- Hc. set (c := (N / 2)%nat) in *. clearbody c.
  destruct (Z.odd rem); cbn [andb];
    repeat case_decide;
    repeat match goal with
    | |- context [(?a =? ?b)] => destruct (Z.eqb_spec a b)
    | |- context [(?a <? ?b)] => destruct (Z.ltb_spec a b)
    | |- context [(?a <=? ?b)] => destruct (Z.leb_spec a b)
    end; lia.
Qed.

Lemma weight_at_witness :
  (1 ≤ len (colors neutrois) ∧ (1 < length (colors neutrois))%nat) ∧
  ∃ ws, length_weights neutrois 10 = Ok ws ∧
    ws !! 1%nat =
    Some (10 / len (colors neutrois)
          + (if Z.odd (10 mod len (colors neutrois)) &&
                (Z.of_nat 1 =? len (colors neutrois) / 2) then 1 else 0)
          + (if Z.of_nat 1 <? 10 mod len (colors neutrois) / 2
             then 1 else 0)
          + (if len (colors neutrois) - 10 mod len (colors neutrois) / 2
                <=? Z.of_nat 1 then 1 else 0)).
Proof.
  assert (1 ≤ len (colors neutrois)) as HN by (unfold len; simpl; lia).
  assert (1 < length (colors neutrois))%nat as Hj by (simpl; lia).
  split; [done|].
  exact (weight_at neutrois 10 1 HN Hj).
Defined.

(** X11. The loop of [with_length] takes [(n mod N) // 2] turns: that is
    the value of [border_i] when it ends, and the weights it ends with are
    those [with_length] expands. *)
Theorem border_loop_turns (self : ColorProfile) (n : Z) :
  1 ≤ len (colors self) →
  ∃ st0 st1 ws,
    border_init self n = Ok st0 ∧ border_i st0 = 0 ∧
    border_loop st0 = Ok st1 ∧
    border_i st1 = (n mod len (colors self)) / 2 ∧
    length_weights self n = Ok ws ∧ weights st1 = ws.
Proof.
  intros HN. destruct (nonempty_colors self HN) as [Hne Hpos].
  destruct (border_loop_spec self n Hne) as (st0 & Hinit & Hloop).
  exists st0. eexists. eexists. split; [done|].
  pose proof (border_init_spec self n Hne) as Hspec. cbv zeta in Hspec.
  rewrite Hinit in Hspec. injection Hspec as ->.
  split; [done|]. split; [exact Hloop|]. cbn [border_i extras weights].
  split.
  - unfold len. pose proof (Zmod_odd (n mod Z.of_nat (length (colors self))))
      as Hodd.
    set (rem := n mod _) in *. clearbody rem.
    destruct (Z.odd rem); Z.div_mod_to_equations; lia.
  - split; [apply length_weights_spec; done|done].
Qed.

Lemma border_loop_turns_witness :
  1 ≤ len (colors neutrois) ∧
  ∃ st0 st1 ws,
    border_init neutrois 11 = Ok st0 ∧ border_i st0 = 0 ∧
    border_loop st0 = Ok st1 ∧
    border_i st1 = (11 mod len (colors neutrois)) / 2 ∧
    length_weights neutrois 11 = Ok ws ∧ weights st1 = ws.
Proof.
  assert (1 ≤ len (colors neutrois)) as HN by (unfold len; simpl; lia).
  split; [done|].
  exact (border_loop_turns neutrois 11 HN).
Defined.

(** ** Symmetric palettes *)

Lemma spec_weights_palindrome (N : nat) (n : Z) :
  (0 < N)%nat →
  Z.odd (Z.of_nat N) = true ∨ Z.even (n mod Z.of_nat N) = true →
  palindrome (spec_weights N n).
Proof.
  intros Hpos Hsym j. rewrite !spec_weights_length. intros Hj.
  rewrite !spec_weights_lookup by (done || lia). f_equal.
  destruct (even_remainder N n Hpos) as [_ Hk]. cbv zeta in Hk.
  pose proof (Nat.div_mod_eq N 2) as Hdiv.
  pose proof (Nat.mod_upper_bound N 2 ltac:(lia)) as Hmod.
  assert (Z.odd (Z.of_nat N) = true → N `mod` 2 = 1)%nat as HN2.
  { intros Hodd. apply Nat2Z.inj. rewrite Nat2Z.inj_mod. simpl (Z.of_nat 2).
    rewrite Zmod_odd, Hodd. done. }
  set (k := Z.to_nat _) in *. set (c := (N / 2)%nat) in *. clearbody k c.
  rewrite <- Z.negb_odd in Hsym.
  destruct (Z.odd (n mod Z.of_nat N)).
  - destruct Hsym as [Hodd|?]; [|done]. specialize (HN2 Hodd).
    repeat case_decide; lia.
  - repeat case_decide; lia.
Qed.

Lemma palindrome_reverse (ws : list Z) : palindrome ws → reverse ws = ws.
Proof.
  intros Hpal. apply list_eq. intros i.
  destruct (decide (i < length ws)%nat) as [Hi|Hi].
  - rewrite reverse_lookup by done. rewrite (Hpal i Hi). f_equal. lia.
  - rewrite !lookup_ge_None_2 by (rewrite ?length_reverse; lia). done.
Qed.

Lemma spec_expand_snoc (cs : list RGB) (c : RGB) :
  ∀ (ws : list Z) (w : Z),
    length cs = length ws →
    spec_expand (cs ++ [c]) (ws ++ [w]) =
    spec_expand cs ws ++ replicate (Z.to_nat w) c.
Proof.
  intros ws w Hlen. unfold spec_expand.
  rewrite zip_with_app by done. rewrite concat_app.
  cbn [zip_with concat]. rewrite app_nil_r. done.
Qed.

Lemma spec_expand_reverse (cs : list RGB) :
  ∀ ws : list Z,
    length cs = length ws →
    spec_expand (reverse cs) (reverse ws) = reverse (spec_expand cs ws).
Proof.
  induction cs as [|c cs IH]; intros [|w ws] Hlen; try done.
  rewrite !reverse_cons.
  rewrite spec_expand_snoc
    by (rewrite !length_reverse; cbn [length] in Hlen; lia).
  rewrite IH by (cbn [length] in Hlen; lia).
  unfold spec_expand. cbn [zip_with concat].
  rewrite reverse_app, reverse_replicate. done.
Qed.

(** X10. A palette that reads the same in both directions gives a colour
    sequence that does too, whenever the number of colours is odd or
    [n mod N] is even. *)
Theorem with_length_symmetric (self : ColorProfile) (n : Z) :
  1 ≤ len (colors self) →
  reverse (colors self) = colors self →
  Z.odd (len (colors self)) = true ∨
    Z.even (n mod len (colors self)) = true →
  ∃ cs, with_length self n = Ok cs ∧ reverse cs = cs.
Proof.
  intros HN Hrev Hsym. destruct (nonempty_colors self HN) as [Hne Hpos].
  eexists. split; [apply with_length_distribute; done|].
  unfold spec_distribute.
  rewrite <- spec_expand_reverse by (rewrite spec_weights_length; done).
  rewrite Hrev, palindrome_reverse; [done|].
  apply spec_weights_palindrome; done.
Qed.

Lemma with_length_symmetric_witness :
  (1 ≤ len (colors (mkColorProfile None
                      [mkRGB 1 2 3; mkRGB 9 9 9; mkRGB 1 2 3])) ∧
   reverse (colors (mkColorProfile None
                      [mkRGB 1 2 3; mkRGB 9 9 9; mkRGB 1 2 3])) =
     colors (mkColorProfile None [mkRGB 1 2 3; mkRGB 9 9 9; mkRGB 1 2 3]) ∧
   (Z.odd (len (colors (mkColorProfile None
                          [mkRGB 1 2 3; mkRGB 9 9 9; mkRGB 1 2 3]))) = true ∨
    Z.even (7 mod len (colors (mkColorProfile None
                          [mkRGB 1 2 3; mkRGB 9 9 9; mkRGB 1 2 3]))) = true)) ∧
  ∃ cs,
    with_length (mkColorProfile None
                   [mkRGB 1 2 3; mkRGB 9 9 9; mkRGB 1 2 3]) 7 = Ok cs ∧
    reverse cs = cs.
Proof.
  set (p := mkColorProfile None [mkRGB 1 2 3; mkRGB 9 9 9; mkRGB 1 2 3]).
  assert (1 ≤ len (colors p)) as HN by (unfold len; simpl; lia).
  assert (reverse (colors p) = colors p) as Hrev by reflexivity.
  assert (Z.odd (len (colors p)) = true ∨
          Z.even (7 mod len (colors p)) = true) as Hsym
    by (left; reflexivity).
  split; [done|].
  exact (with_length_symmetric p 7 HN Hrev Hsym).
Defined.

(** ** [color_text] on texts without, or made only of, spaces *)

Lemma concat_singletons {A} (l : list A) : concat (imap (λ _ x, [x]) l) = l.
Proof.
  induction l as [|x l IH]; [done|].
  rewrite imap_cons. cbn [concat app]. f_equal. exact IH.
Qed.

(** X12. With [space_only], a text without any space comes back unchanged,
    followed by the reset sequence: no escape sequence is emitted. *)
Theorem color_text_no_space `{CU : ColorUtil} (self : ColorProfile)
    (txt : str) (foreground : bool) :
  1 ≤ len (colors self) → Forall (λ t, t ≠ space) txt →
  color_text self txt foreground true = Ok (txt ++ reset).
Proof.
  intros HN Hns. destruct (nonempty_colors self HN) as [Hne _].
  destruct (color_text_pieces self txt foreground true Hne)
    as (cs & _ & _ & ->).
  do 2 f_equal. rewrite <- (concat_singletons txt) at 3. f_equal.
  apply imap_ext. intros i t Ht. unfold piece.
  rewrite Forall_lookup in Hns.
  pose proof (Hns i t Ht) as Hsp. apply N.eqb_neq in Hsp. rewrite Hsp.
  cbn [andb negb].
  destruct (bool_decide_reflect (txt !! (i - 1)%nat = Some space))
    as [Hprev|_]; [|rewrite andb_false_r; done].
  destruct (Hns _ _ Hprev). done.
Qed.

Lemma color_text_no_space_witness :
  (1 ≤ len (colors neutrois) ∧ Forall (λ t, t ≠ space) (lit "hyfetch")) ∧
  @color_text spec_color_util neutrois (lit "hyfetch") true true =
    Ok (lit "hyfetch" ++ reset).
Proof.
  assert (1 ≤ len (colors neutrois)) as HN by (unfold len; simpl; lia).
  assert (Forall (λ t, t ≠ space) (lit "hyfetch")) as Hns
    by (repeat constructor; discriminate).
  split; [done|].
  exact (@color_text_no_space spec_color_util neutrois (lit "hyfetch")
           true HN Hns).
Defined.

(** X13. On a text made only of spaces [space_only] changes nothing: every
    character is coloured either way. *)
Theorem color_text_all_spaces `{CU : ColorUtil} (self : ColorProfile)
    (txt : str) (foreground : bool) :
  1 ≤ len (colors self) → Forall (λ t, t = space) txt →
  color_text self txt foreground true =
  color_text self txt foreground false.
Proof.
  intros HN Hsp. destruct (nonempty_colors self HN) as [Hne _].
  destruct (color_text_pieces self txt foreground true Hne)
    as (cs & Hcs & _ & ->).
  destruct (color_text_pieces self txt foreground false Hne)
    as (cs' & Hcs' & _ & ->).
  rewrite Hcs in Hcs'. injection Hcs' as <-.
  do 3 f_equal. apply imap_ext. intros i t Ht.
  rewrite Forall_lookup in Hsp. rewrite (Hsp i t Ht).
  unfold piece. rewrite N.eqb_refl. done.
Qed.

Lemma color_text_all_spaces_witness :
  (1 ≤ len (colors neutrois) ∧ Forall (λ t, t = space) (lit "    ")) ∧
  @color_text spec_color_util neutrois (lit "    ") false true =
  @color_text spec_color_util neutrois (lit "    ") false false.
Proof.
  assert (1 ≤ len (colors neutrois)) as HN by (unfold len; simpl; lia).
  assert (Forall (λ t, t = space) (lit "    ")) as Hsp
    by (repeat constructor).
  split; [done|].
  exact (@color_text_all_spaces spec_color_util neutrois (lit "    ")
           false HN Hsp).
Defined.

(** ** [__init__] on strings *)

Lemma from_hex_all_lookup `{CU : ColorUtil} (l : list str) :
  ∀ cs, from_hex_all l = Ok cs →
    ∀ (i : nat) (s : str), l !! i = Some s →
      ∃ c, from_hex s = Ok c ∧ cs !! i = Some c.
Proof.
  induction l as [|s0 l IH]; intros cs; cbn [from_hex_all].
  - intros _ i s Hi. rewrite lookup_nil in Hi. done.
  - destruct (from_hex s0) as [c0|] eqn:E0; cbn [bind]; [|done].
    destruct (from_hex_all l) as [xs|]; cbn [bind]; [|done].
    intros [= <-] [|i] s Hi.
    + injection Hi as <-. exists c0. done.
    + apply (IH xs eq_refl i s Hi).
Qed.

Lemma from_hex_all_raise `{CU : ColorUtil} (l1 l2 : list str) (s : str)
    (e : exn) :
  Forall (λ x, ∃ c, from_hex x = Ok c) l1 → from_hex s = Raise e →
  from_hex_all (l1 ++ s :: l2) = Raise e.
Proof.
  intros Hl1 Hs. induction Hl1 as [|x l1 [c Hc] _ IH]; cbn [app from_hex_all].
  - rewrite Hs. done.
  - rewrite Hc. cbn [bind]. rewrite IH. done.
Qed.

(** X14. A profile built from strings keeps the strings as [raw] and holds
    one colour per string, the one [RGB.from_hex] gives for it. *)
Theorem init_from_strings `{CU : ColorUtil} (l : list str)
    (self : ColorProfile) :
  __init__ (Strs l) = Ok self →
  raw self = Some l ∧ length (colors self) = length l ∧
  ∀ (i : nat) (s : str), l !! i = Some s →
    ∃ c, from_hex s = Ok c ∧ colors self !! i = Some c.
Proof.
  unfold __init__. destruct (getitem l 0); cbn [bind]; [|done].
  destruct (from_hex_all l) as [cs|] eqn:E; cbn [bind]; [|done].
  intros [= <-]. cbn [raw colors]. split; [done|]. split.
  - apply from_hex_all_length. done.
  - apply from_hex_all_lookup. done.
Qed.

Lemma init_from_strings_witness :
  @__init__ spec_color_util (Strs [lit "#99D9EA"; lit "#7F7F7F"]) =
    Ok autosexual ∧
  raw autosexual = Some [lit "#99D9EA"; lit "#7F7F7F"] ∧
  length (colors autosexual) = length [lit "#99D9EA"; lit "#7F7F7F"] ∧
  ∀ (i : nat) (s : str), [lit "#99D9EA"; lit "#7F7F7F"] !! i = Some s →
    ∃ c, @from_hex spec_color_util s = Ok c ∧
      colors autosexual !! i = Some c.
Proof.
  assert (@__init__ spec_color_util (Strs [lit "#99D9EA"; lit "#7F7F7F"]) =
          Ok autosexual) as Hinit by reflexivity.
  split; [done|].
  exact (@init_from_strings spec_color_util _ _ Hinit).
Defined.

(** X15. When one of the strings is refused by [RGB.from_hex], the strings
    before it being accepted, the constructor raises that same error and
    no profile is built. *)
Theorem init_bad_string `{CU : ColorUtil} (l1 l2 : list str) (s : str)
    (e : exn) :
  Forall (λ x, ∃ c, from_hex x = Ok c) l1 → from_hex s = Raise e →
  __init__ (Strs (l1 ++ s :: l2)) = Raise e.
Proof.
  intros Hl1 Hs. unfold __init__.
  assert (∃ x, getitem (l1 ++ s :: l2) 0 = Ok x) as [x ->]
    by (destruct l1; eexists; reflexivity).
  cbn [bind]. rewrite (from_hex_all_raise l1 l2 s e) by done. done.
Qed.

Lemma init_bad_string_witness :
  (Forall (λ x, ∃ c, @from_hex spec_color_util x = Ok c) [lit "#FFFFFF"] ∧
   @from_hex spec_color_util (lit "#12345") = Raise ColorParseError) ∧
  @__init__ spec_color_util
    (Strs ([lit "#FFFFFF"] ++ lit "#12345" :: [lit "#000000"])) =
    Raise ColorParseError.
Proof.
  assert (Forall (λ x, ∃ c, @from_hex spec_color_util x = Ok c)
            [lit "#FFFFFF"]) as Hl1
    by (repeat constructor; eexists; reflexivity).
  assert (@from_hex spec_color_util (lit "#12345") = Raise ColorParseError)
    as Hs by reflexivity.
  split; [done|].
  exact (@init_bad_string spec_color_util _ [lit "#000000"] _ _ Hl1 Hs).
Defined.

(** ** Building a table *)

Section Table.
Context `{CU : ColorUtil}.

Lemma init_Ok_nonempty (cl : ColorList) (self : ColorProfile) :
  __init__ cl = Ok self → colors self ≠ [].
Proof.
  intros Hinit. destruct cl as [[|c l]|[|c l]]; try discriminate Hinit.
  - unfold __init__ in Hinit.
    change (getitem (c :: l) 0) with (Ok c) in Hinit. cbn [bind] in Hinit.
    destruct (from_hex_all (c :: l)) as [cs|] eqn:E; cbn [bind] in Hinit;
      [|done].
    injection Hinit as <-. cbn [colors].
    apply from_hex_all_length in E. destruct cs; done.
  - injection Hinit as <-. done.
Qed.

Lemma items_of_cons (k k' : str) (v : list str)
    (items : list (str * list str)) :
  items_of k ((k', v) :: items) =
  if decide (k' = k) then v :: items_of k items else items_of k items.
Proof.
  unfold items_of. rewrite filter_cons. cbn [fst].
  destruct (decide (k' = k)); done.
Qed.

Lemma items_of_nil_iff (k : str) (items : list (str * list str)) :
  items_of k items = [] ↔ k ∉ items.*1.
Proof.
  induction items as [|[k' v] items IH].
  - split; [intros _; apply not_elem_of_nil|done].
  - rewrite items_of_cons, fmap_cons, not_elem_of_cons. cbn [fst].
    destruct (decide (k' = k)) as [->|Hne].
    + split; [done|]. intros [? _]. done.
    + rewrite IH. split; [|tauto]. intros ?. split; [congruence|done].
Qed.

(** What a key is bound to once the items are stored on top of [d0]. *)
Lemma dict_display_lookup (items : list (str * list str)) :
  ∀ (d0 d : gmap str ColorProfile) (k : str),
    dict_display items d0 = Ok d →
    match last (items_of k items) with
    | Some v => ∃ self, __init__ (Strs v) = Ok self ∧ d !! k = Some self
    | None => d !! k = d0 !! k
    end.
Proof.
  induction items as [|[k' v'] items IH]; intros d0 d k; cbn [dict_display].
  - intros [= <-]. done.
  - destruct (__init__ (Strs v')) as [p|] eqn:Hp; cbn [bind]; [|done].
    intros Hd. specialize (IH _ _ k Hd). rewrite items_of_cons.
    destruct (decide (k' = k)) as [->|Hne].
    + rewrite last_cons. destruct (last (items_of k items)); [done|].
      exists p. rewrite IH, lookup_insert_eq. done.
    + destruct (last (items_of k items)); [done|].
      rewrite IH, lookup_insert_ne; done.
Qed.

Lemma dict_display_Ok_iff (items : list (str * list str)) :
  ∀ d0 : gmap str ColorProfile,
    (∃ d, dict_display items d0 = Ok d) ↔
    Forall (λ kv, ∃ self, __init__ (Strs kv.2) = Ok self) items.
Proof.
  induction items as [|[k v] items IH]; intros d0; cbn [dict_display].
  - split; [constructor|]. intros _. eexists. done.
  - rewrite Forall_cons. cbn [snd].
    destruct (__init__ (Strs v)) as [p|]; cbn [bind].
    + rewrite IH. split; [|tauto]. intros ?. split; [eexists; done|done].
    + split; [intros [? ?]; done|]. intros [[? ?] _]. done.
Qed.

End Table.

(** X16. A key written several times is bound to its last entry: the table
    holds, under each key of the display, the profile built from the last
    list written under it. *)
Theorem dict_display_last_wins `{CU : ColorUtil}
    (items : list (str * list str)) (d : gmap str ColorProfile)
    (k : str) (v : list str) :
  dict_display items ∅ = Ok d → last (items_of k items) = Some v →
  ∃ self, __init__ (Strs v) = Ok self ∧ d !! k = Some self.
Proof.
  intros Hd Hlast. pose proof (dict_display_lookup items ∅ d k Hd) as H.
  rewrite Hlast in H. exact H.
Qed.

Lemma dict_display_last_wins_witness :
  (@dict_display spec_color_util
     [(lit "neutrois", [lit "#99D9EA"; lit "#7F7F7F"]);
      (lit "neutrois", [lit "#FFFFFF"; lit "#1F9F00"; lit "#000000"])] ∅ =
     Ok (<[lit "neutrois" := neutrois]>
           (<[lit "neutrois" := autosexual]> ∅)) ∧
   last (items_of (lit "neutrois")
           [(lit "neutrois", [lit "#99D9EA"; lit "#7F7F7F"]);
            (lit "neutrois", [lit "#FFFFFF"; lit "#1F9F00"; lit "#000000"])])
     = Some [lit "#FFFFFF"; lit "#1F9F00"; lit "#000000"]) ∧
  ∃ self,
    @__init__ spec_color_util
      (Strs [lit "#FFFFFF"; lit "#1F9F00"; lit "#000000"]) = Ok self ∧
    (<[lit "neutrois" := neutrois]>
       (<[lit "neutrois" := autosexual]> ∅) : gmap str ColorProfile)
      !! lit "neutrois" = Some self.
Proof.
  assert (@dict_display spec_color_util
     [(lit "neutrois", [lit "#99D9EA"; lit "#7F7F7F"]);
      (lit "neutrois", [lit "#FFFFFF"; lit "#1F9F00"; lit "#000000"])] ∅ =
     Ok (<[lit "neutrois" := neutrois]>
           (<[lit "neutrois" := autosexual]> ∅))) as Hd by reflexivity.
  assert (last (items_of (lit "neutrois")
           [(lit "neutrois", [lit "#99D9EA"; lit "#7F7F7F"]);
            (lit "neutrois", [lit "#FFFFFF"; lit "#1F9F00"; lit "#000000"])])
     = Some [lit "#FFFFFF"; lit "#1F9F00"; lit "#000000"]) as Hlast
    by reflexivity.
  split; [done|].
  exact (@dict_display_last_wins spec_color_util _ _ _ _ Hd Hlast).
Defined.

(** X17. The names of the table are the keys of the display, no more and no
    fewer. *)
Theorem dict_display_names `{CU : ColorUtil}
    (items : list (str * list str)) (d : gmap str ColorProfile) (k : str) :
  dict_display items ∅ = Ok d → (is_Some (d !! k) ↔ k ∈ items.*1).
Proof.
  intros Hd. pose proof (dict_display_lookup items ∅ d k Hd) as H.
  destruct (last (items_of k items)) as [v|] eqn:Hlast.
  - destruct H as (p & _ & ->). split; [intros _|eexists; done].
    destruct (decide (k ∈ items.*1)) as [|Hnot]; [done|].
    apply items_of_nil_iff in Hnot. rewrite Hnot in Hlast. done.
  - rewrite H, lookup_empty. apply last_None, items_of_nil_iff in Hlast.
    split; [intros []; done|done].
Qed.

Lemma dict_display_names_witness :
  @dict_display spec_color_util
    [(lit "autosexual", [lit "#99D9EA"; lit "#7F7F7F"])] ∅ =
    Ok (<[lit "autosexual" := autosexual]> ∅) ∧
  (is_Some ((<[lit "autosexual" := autosexual]> ∅
               : gmap str ColorProfile) !! lit "rainbow") ↔
   lit "rainbow" ∈ [(lit "autosexual", [lit "#99D9EA"; lit "#7F7F7F"])].*1).
Proof.
  assert (@dict_display spec_color_util
            [(lit "autosexual", [lit "#99D9EA"; lit "#7F7F7F"])] ∅ =
          Ok (<[lit "autosexual" := autosexual]> ∅)) as Hd by reflexivity.
  split; [done|].
  exact (@dict_display_names spec_color_util _ _ (lit "rainbow") Hd).
Defined.

(** X18. Every profile found in a table can colour any text: it has at
    least one colour, so [color_text] returns a string and raises
    nothing. *)
Theorem table_profiles_usable `{CU : ColorUtil}
    (items : list (str * list str)) (d : gmap str ColorProfile)
    (k : str) (self : ColorProfile) (txt : str)
    (foreground space_only : bool) :
  dict_display items ∅ = Ok d → d !! k = Some self →
  1 ≤ len (colors self) ∧
  ∃ out, color_text self txt foreground space_only = Ok out.
Proof.
  intros Hd Hk. pose proof (dict_display_lookup items ∅ d k Hd) as H.
  assert (colors self ≠ []) as Hne.
  { destruct (last (items_of k items)).
    - destruct H as (p & Hp & Hk'). rewrite Hk in Hk'. injection Hk' as <-.
      eapply init_Ok_nonempty. done.
    - rewrite Hk, lookup_empty in H. done. }
  split.
  - unfold len. destruct (colors self); [done|]. cbn [length]. lia.
  - destruct (color_text_pieces self txt foreground space_only Hne)
      as (cs & _ & _ & ->). eexists. done.
Qed.

Lemma table_profiles_usable_witness :
  (@dict_display spec_color_util
     [(lit "autosexual", [lit "#99D9EA"; lit "#7F7F7F"])] ∅ =
     Ok (<[lit "autosexual" := autosexual]> ∅) ∧
   (<[lit "autosexual" := autosexual]> ∅ : gmap str ColorProfile)
     !! lit "autosexual" = Some autosexual) ∧
  1 ≤ len (colors autosexual) ∧
  ∃ out, @color_text spec_color_util autosexual (lit "a b") true false =
    Ok out.
Proof.
  assert (@dict_display spec_color_util
            [(lit "autosexual", [lit "#99D9EA"; lit "#7F7F7F"])] ∅ =
          Ok (<[lit "autosexual" := autosexual]> ∅)) as Hd by reflexivity.
  assert ((<[lit "autosexual" := autosexual]> ∅ : gmap str ColorProfile)
            !! lit "autosexual" = Some autosexual) as Hk by reflexivity.
  split; [done|].
  exact (@table_profiles_usable spec_color_util _ _ _ _ (lit "a b")
           true false Hd Hk).
Defined.

(** X19. A table is built exactly when every one of its entries can be: one
    list that the constructor refuses, anywhere in the display, and no
    table is produced. *)
Theorem dict_display_builds_iff `{CU : ColorUtil}
    (items : list (str * list str)) :
  (∃ d, dict_display items ∅ = Ok d) ↔
  Forall (λ kv, ∃ self, __init__ (Strs kv.2) = Ok self) items.
Proof. apply dict_display_Ok_iff. Qed.
